(** * vscode-opa: the OPA bridge of [src/opa.ts]

    A shallow embedding of the version resolver, the process invoker and the
    reference formatter of [src/opa.ts], with the JavaScript built-ins they
    call, followed by the properties of each of them.

    Strings are [String.string]: one [ascii] per UTF-16 code unit, so the
    development covers the strings whose code units are below 256.  Code-unit
    order on those is the order of [String.compare]. *)

From Stdlib Require Import ZArith QArith List Bool Ascii String DecimalString Lia.
From Stdlib Require DecimalPos.
Import ListNotations.

Open Scope string_scope.
Open Scope Z_scope.

(** ** JavaScript built-ins used by [opa.ts] *)

Module JS.

(** *** Strings *)

(** [StrWhiteSpaceChar] (white space and line terminators) below U+0100:
    TAB, LF, VT, FF, CR, SP and NBSP. *)
Definition isWhiteSpace (c : ascii) : bool :=
  let n := nat_of_ascii c in
  ((9 <=? n)%nat && (n <=? 13)%nat) || (n =? 32)%nat || (n =? 160)%nat.

Fixpoint trimStart (s : string) : string :=
  match s with
  | String c rest => if isWhiteSpace c then trimStart rest else s
  | EmptyString => EmptyString
  end.

(** [trimEnd] drops trailing white space: a character is kept when something
    that is kept follows it, or when it is no white space itself. *)
Fixpoint trimEnd (s : string) : string :=
  match s with
  | String c rest =>
      match trimEnd rest with
      | EmptyString => if isWhiteSpace c then EmptyString else String c EmptyString
      | kept => String c kept
      end
  | EmptyString => EmptyString
  end.

(** [String.prototype.trim]. *)
Definition trim (s : string) : string := trimEnd (trimStart s).

(** [s.substring(n)]: [s] without its first [n] code units. *)
Fixpoint drop (n : nat) (s : string) : string :=
  match n, s with
  | S k, String _ rest => drop k rest
  | _, _ => s
  end.

(** The scan of [String.prototype.split] for a non-empty separator: [piece]
    is the text since the last match, [skip] counts the code units of a match
    that are still to be stepped over. *)
Fixpoint split_from (sep : string) (skip : nat) (piece : string) (s : string)
  : list string :=
  match s with
  | EmptyString => [piece]
  | String c rest =>
      match skip with
      | S k => split_from sep k piece rest
      | O =>
          if prefix sep s
          then piece :: split_from sep (String.length sep - 1) EmptyString rest
          else split_from sep 0 (piece ++ String c EmptyString) rest
      end
  end.

(** [s.split(sep)]: every piece between two matches of [sep]; an empty
    separator cuts between all code units. *)
Definition split_all (sep s : string) : list string :=
  match sep with
  | EmptyString => map (fun c => String c EmptyString) (list_ascii_of_string s)
  | _ => split_from sep 0 EmptyString s
  end.

(** [s.split(sep, limit)]: the pieces are those of [s.split(sep)], and the
    array is cut after [limit] of them; the text after the last kept piece is
    dropped, not appended to it. *)
Definition split (sep : string) (limit : nat) (s : string) : list string :=
  firstn limit (split_all sep s).

(** *** Numbers *)

(** An IEEE 754 binary64 value, up to the sign of zero, which no operation of
    [opa.ts] observes.  [Finite q] carries the exact value in lowest terms. *)
Inductive number : Type :=
| NaN
| Infinity (negative : bool)
| Finite (q : Q).

Definition pow2 (k : Z) : Z := 2 ^ k.

(** Round the positive rational [n / d] to the nearest binary64 value, ties
    to even: [k] is the exponent of the unit in the last place, at least that
    of the subnormals. *)
Definition round_binary64 (n d : Z) : number :=
  let e0 := Z.log2 n - Z.log2 d in
  let below := if 0 <=? e0 then n <? d * pow2 e0 else n * pow2 (- e0) <? d in
  let e := if below then e0 - 1 else e0 in
  let k := Z.max (e - 52) (-1074) in
  let num := if 0 <=? k then n else n * pow2 (- k) in
  let den := if 0 <=? k then d * pow2 k else d in
  let m := num / den in
  let r := num mod den in
  let m' := if 2 * r <? den then m
            else if den <? 2 * r then m + 1
            else if Z.even m then m else m + 1 in
  if (0 <=? k) && (pow2 1024 <=? m' * pow2 k)
  then Infinity false
  else Finite (Qred (if 0 <=? k then (m' * pow2 k) # 1
                     else m' # Z.to_pos (pow2 (- k)))).

(** The binary64 value nearest to [sign * m * 10 ^ e]. *)
Definition of_decimal (negative : bool) (m e : Z) : number :=
  if m =? 0 then Finite 0
  else
    match (if 0 <=? e then round_binary64 (m * 10 ^ e) 1
           else round_binary64 m (10 ^ (- e))) with
    | Finite q => Finite (if negative then Qopp q else q)
    | Infinity _ => Infinity negative
    | NaN => NaN
    end.

Definition digit_value (base : Z) (c : ascii) : option Z :=
  let n := Z.of_nat (nat_of_ascii c) in
  let v := if (48 <=? n) && (n <=? 57) then n - 48
           else if (97 <=? n) && (n <=? 102) then n - 87
           else if (65 <=? n) && (n <=? 70) then n - 55
           else 99 in
  if v <? base then Some v else None.

(** Read the longest run of digits of [base] at the head of [s]: the value
    accumulated from [acc], the number of digits read from [count], and the
    rest of the string. *)
Fixpoint read_digits (base acc : Z) (count : nat) (s : string)
  : Z * nat * string :=
  match s with
  | String c rest =>
      match digit_value base c with
      | Some d => read_digits base (acc * base + d) (S count) rest
      | None => (acc, count, s)
      end
  | EmptyString => (acc, count, EmptyString)
  end.

(** [ExponentPart_opt] followed by the end of the string. *)
Definition read_exponent (s : string) : option Z :=
  match s with
  | EmptyString => Some 0
  | String c rest =>
      if (c =? "e")%char || (c =? "E")%char then
        let '(negative, digits) :=
          match rest with
          | String "+" r => (false, r)
          | String "-" r => (true, r)
          | _ => (false, rest)
          end in
        match read_digits 10 0 0 digits with
        | (_, O, _) => None
        | (v, _, EmptyString) => Some (if negative then - v else v)
        | _ => None
        end
      else None
  end.

(** [StrUnsignedDecimalLiteral] other than [Infinity]: digits, an optional
    fraction, an optional exponent, with a digit before or after the dot. *)
Definition read_unsigned_decimal (negative : bool) (s : string) : number :=
  let '(ip, ni, r1) := read_digits 10 0 0 s in
  let '(m, nf, r2) :=
    match r1 with
    | String "." r => read_digits 10 ip 0 r
    | _ => (ip, O, r1)
    end in
  match (ni + nf)%nat with
  | O => NaN
  | _ =>
      match read_exponent r2 with
      | Some e => of_decimal negative m (e - Z.of_nat nf)
      | None => NaN
      end
  end.

Definition read_decimal (negative : bool) (s : string) : number :=
  if (s =? "Infinity")%string then Infinity negative
  else read_unsigned_decimal negative s.

(** [NonDecimalIntegerLiteral]: the digits after a [0x], [0o] or [0b]. *)
Definition read_radix (base : Z) (s : string) : number :=
  match read_digits base 0 0 s with
  | (_, O, _) => NaN
  | (v, _, EmptyString) => of_decimal false v 0
  | _ => NaN
  end.

(** [Number(s)] on a string ([StringToNumber]): white space is trimmed, the
    empty string is zero, and anything that is no numeric literal is [NaN]. *)
Definition Number (s : string) : number :=
  match trim s with
  | EmptyString => Finite 0
  | String "+" u => read_decimal false u
  | String "-" u => read_decimal true u
  | String "0" (String "x" u) | String "0" (String "X" u) => read_radix 16 u
  | String "0" (String "o" u) | String "0" (String "O" u) => read_radix 8 u
  | String "0" (String "b" u) | String "0" (String "B" u) => read_radix 2 u
  | u => read_decimal false u
  end.

(** [x < y] on numbers; [None] is the undefined result of a comparison with
    [NaN]. *)
Definition number_lt (x y : number) : option bool :=
  match x, y with
  | NaN, _ | _, NaN => None
  | Infinity true, Infinity true => Some false
  | Infinity true, _ => Some true
  | _, Infinity true => Some false
  | Infinity false, _ => Some false
  | _, Infinity false => Some true
  | Finite p, Finite q => Some (negb (Qle_bool q p))
  end.

(** [x == y] on numbers: never true of [NaN]. *)
Definition number_eq (x y : number) : bool :=
  match x, y with
  | Infinity a, Infinity b => Bool.eqb a b
  | Finite p, Finite q => Qeq_bool p q
  | _, _ => false
  end.

(** *** JSON values *)

#[local] Set Warnings "-register-all".

(** A value made by [JSON.parse].  A number is an integer in the safe range,
    where [Number::toString] prints all its digits; an object lists its own
    properties in enumeration order, every key once. *)
Inductive json : Type :=
| JNull
| JBoolean (b : bool)
| JNumber (z : Z)
| JString (s : string)
| JArray (items : list json)
| JObject (properties : list (string * json)).

(** [Number::toString] on the safe integers: all the digits, after a minus
    sign for a negative one.  (From [1e21] on JavaScript prints an
    exponent; those numbers are outside the values [json] stands for.) *)
Definition number_toString (z : Z) : string :=
  NilZero.string_of_int (Z.to_int z).

(** [Array.prototype.join(",")] on strings already converted. *)
Definition join (items : list string) : string := String.concat "," items.

(** [ToString] on a JSON value: an array joins its elements with commas,
    [null] elements as the empty string; an object is [[object Object]]. *)
Fixpoint toString (v : json) : string :=
  match v with
  | JNull => "null"
  | JBoolean b => if b then "true" else "false"
  | JNumber z => number_toString z
  | JString s => s
  | JArray items =>
      join (map (fun item => match item with
                             | JNull => EmptyString
                             | _ => toString item
                             end) items)
  | JObject _ => "[object Object]"
  end.

Definition double_quote : string := String "034" EmptyString.
Definition backslash : string := String "092" EmptyString.

Definition hex_digit (n : nat) : string :=
  String.substring n 1 "0123456789abcdef".

(** [QuoteJSONString] on one code unit. *)
Definition quote_char (c : ascii) : string :=
  let n := nat_of_ascii c in
  if (n =? 34)%nat then backslash ++ double_quote
  else if (n =? 92)%nat then backslash ++ backslash
  else if (n =? 8)%nat then backslash ++ "b"
  else if (n =? 9)%nat then backslash ++ "t"
  else if (n =? 10)%nat then backslash ++ "n"
  else if (n =? 12)%nat then backslash ++ "f"
  else if (n =? 13)%nat then backslash ++ "r"
  else if (n <? 32)%nat
       then backslash ++ "u00" ++ hex_digit (n / 16) ++ hex_digit (n mod 16)
  else String c EmptyString.

Fixpoint quote_chars (s : string) : string :=
  match s with
  | String c rest => quote_char c ++ quote_chars rest
  | EmptyString => EmptyString
  end.

Definition quote (s : string) : string :=
  double_quote ++ quote_chars s ++ double_quote.

(** [JSON.stringify(v)] without indentation. *)
Fixpoint stringify (v : json) : string :=
  match v with
  | JNull => "null"
  | JBoolean b => if b then "true" else "false"
  | JNumber z => number_toString z
  | JString s => quote s
  | JArray items => "[" ++ join (map stringify items) ++ "]"
  | JObject properties =>
      "{" ++ join (map (fun kv => quote (fst kv) ++ ":" ++ stringify (snd kv))
                       properties) ++ "}"
  end.

(** *** The pattern [^[a-zA-Z_][a-zA-Z0-9_]*$] *)

Definition isLetter (c : ascii) : bool :=
  let n := nat_of_ascii c in
  ((97 <=? n)%nat && (n <=? 122)%nat) || ((65 <=? n)%nat && (n <=? 90)%nat).

Definition isDigit (c : ascii) : bool :=
  let n := nat_of_ascii c in (48 <=? n)%nat && (n <=? 57)%nat.

Definition isUnderscore (c : ascii) : bool := (c =? "_")%char.

Fixpoint all_chars (p : ascii -> bool) (s : string) : bool :=
  match s with
  | String c rest => p c && all_chars p rest
  | EmptyString => true
  end.

End JS.

(** ** The version resolver *)

(** An element of the array returned by [parseOPAVersion] (declared
    [any[]]): a number, a string, or the [undefined] of a missing index. *)
Inductive any : Type :=
| VUndefined
| VNumber (n : JS.number)
| VString (s : string).

(** [ToNumber] on the values above. *)
Definition ToNumber (v : any) : JS.number :=
  match v with
  | VUndefined => JS.NaN
  | VNumber n => n
  | VString s => JS.Number s
  end.

(** The abstract relational comparison [x < y]: two strings compare by code
    units, anything else as numbers; [None] is its undefined result. *)
Definition less_than (x y : any) : option bool :=
  match x, y with
  | VString a, VString b => Some (a <? b)%string
  | _, _ => JS.number_lt (ToNumber x) (ToNumber y)
  end.

(** [x > y] is [y < x], with undefined read as false. *)
Definition gt (x y : any) : bool :=
  match less_than y x with
  | Some r => r
  | None => false
  end.

(** [x >= y] is the negation of [x < y], with undefined read as false. *)
Definition ge (x y : any) : bool :=
  match less_than x y with
  | Some r => negb r
  | None => false
  end.

(** [x === y]. *)
Definition strict_eq (x y : any) : bool :=
  match x, y with
  | VUndefined, VUndefined => true
  | VNumber a, VNumber b => JS.number_eq a b
  | VString a, VString b => (a =? b)%string
  | _, _ => false
  end.

(** [arr[i]]: [undefined] past the end. *)
Definition index (arr : list any) (i : nat) : any :=
  nth i arr VUndefined.

(** [parts[i]] on an array of strings known to be long enough. *)
Definition part (parts : list string) (i : nat) : string :=
  nth i parts EmptyString.

(** [parseOPAVersion], opa.ts lines 72-91. *)
Definition parseOPAVersion (s : string) : list any :=
  let parts := JS.split "." 3 s in
  if (List.length parts <? 3)%nat then []
  else
    let major := JS.Number (part parts 0) in
    let minor := JS.Number (part parts 1) in
    let pointParts := JS.split "-" 2 (part parts 2) in
    let point := JS.Number (part pointParts 0) in
    let patch :=
      if (2 <=? List.length pointParts)%nat then part pointParts 1
      else EmptyString in
    [VNumber major; VNumber minor; VNumber point; VString patch].

(** The loop of lines 54-60 from index [i] with [n] rounds to go: [Some r]
    when a round returns [r], [None] when the loop runs to its end. *)
Fixpoint compare_fields (aVersion bVersion : list any) (n i : nat)
  : option bool :=
  match n with
  | O => None
  | S n' =>
      if gt (index aVersion i) (index bVersion i) then Some true
      else if gt (index bVersion i) (index aVersion i) then Some false
      else compare_fields aVersion bVersion n' (S i)
  end.

(** Lines 50-68 on two parsed versions. *)
Definition sameOrNewer (aVersion bVersion : list any) : bool :=
  if negb (List.length aVersion =? 4)%nat || negb (List.length bVersion =? 4)%nat
  then true
  else
    match compare_fields aVersion bVersion 3 0 with
    | Some r => r
    | None =>
        let empty := VString EmptyString in
        if strict_eq (index aVersion 3) empty
           && negb (strict_eq (index bVersion 3) empty)
        then true
        else if negb (strict_eq (index aVersion 3) empty)
                && strict_eq (index bVersion 3) empty
        then false
        else ge (index aVersion 3) (index bVersion 3)
    end.

(** [opaVersionSameOrNewerThan], opa.ts lines 45-69. *)
Definition opaVersionSameOrNewerThan (a b : string) : bool :=
  let aVersion := parseOPAVersion a in
  let bVersion := parseOPAVersion b in
  sameOrNewer aVersion bVersion.

(** What [cp.spawnSync] reports: the exit status ([null] when the process
    did not run or was killed) and the captured standard output. *)
Record SpawnSyncReturns : Type := {
  status : option Z;
  stdout : string
}.

Definition line_feed : string := String "010" EmptyString.

(** The loop of lines 103-111 from index [i] with [n] rounds to go. *)
Fixpoint scan_lines (lines : list string) (n i : nat) : string :=
  match n with
  | O => EmptyString
  | S n' =>
      let parts := JS.split ": " 2 (JS.trim (part lines i)) in
      if (List.length parts <? 2)%nat then scan_lines lines n' (S i)
      else if (part parts 0 =? "Version")%string then part parts 1
      else scan_lines lines n' (S i)
  end.

Section VersionQuery.

(** [cp.spawnSync]: what running a command with arguments reports. *)
Variable spawnSync : string -> list string -> SpawnSyncReturns.

(** [getOPAVersionString], opa.ts lines 94-113. *)
Definition getOPAVersionString : string :=
  let result := spawnSync "opa" ["version"] in
  match status result with
  | Some 0 =>
      let lines := JS.split_all line_feed (stdout result) in
      scan_lines lines (List.length lines) 0
  | _ => EmptyString
  end.

(** [installedOPASameOrNewerThan], opa.ts lines 34-37. *)
Definition installedOPASameOrNewerThan (x : string) : bool :=
  let s := getOPAVersionString in
  opaVersionSameOrNewerThan s x.

End VersionQuery.

(** ** The reference formatter *)

(** A thrown exception. *)
Inductive error : Type :=
| TypeError
| SyntaxError.

(** How a call ends. *)
Inductive completion (A : Type) : Type :=
| Return (a : A)
| Throw (e : error).
Arguments Return {A} a.
Arguments Throw {A} e.

(** An element of a ref: an object whose [type] and [value] properties hold
    JSON values, [None] where the property is missing ([undefined]). *)
Record segment : Type := {
  type : option JS.json;
  value : option JS.json
}.

(** [ToString] of a property that may be [undefined]. *)
Definition ToString (v : option JS.json) : string :=
  match v with
  | Some j => JS.toString j
  | None => "undefined"
  end.

(** [JSON.stringify(v)] inside a string concatenation: [undefined] stays
    [undefined] and is then printed as such. *)
Definition JSON_stringify (v : option JS.json) : string :=
  match v with
  | Some j => JS.stringify j
  | None => "undefined"
  end.

(** [regoVarPattern.test(v)], opa.ts line 11; [test] converts its argument
    to a string. *)
Definition regoVarPattern_test (v : option JS.json) : bool :=
  match ToString v with
  | String c rest =>
      (JS.isLetter c || JS.isUnderscore c)
      && JS.all_chars (fun d => JS.isLetter d || JS.isDigit d || JS.isUnderscore d)
                      rest
  | EmptyString => false
  end.

(** [seg.type === "string"]. *)
Definition type_is_string (seg : segment) : bool :=
  match type seg with
  | Some (JS.JString t) => (t =? "string")%string
  | _ => false
  end.

(** [result += text]: the left operand is converted to a string. *)
Definition append_to (result : option JS.json) (text : string) : option JS.json :=
  Some (JS.JString (ToString result ++ text)).

(** The loop of lines 121-129 from index [i] with [n] rounds to go. *)
Fixpoint refToString_loop (ref : list segment) (n i : nat)
    (result : option JS.json) : completion (option JS.json) :=
  match n with
  | O => Return result
  | S n' =>
      match nth_error ref i with
      | None => Throw TypeError
      | Some seg =>
          if type_is_string seg && regoVarPattern_test (value seg)
          then refToString_loop ref n' (S i)
                 (append_to result ("." ++ ToString (value seg)))
          else refToString_loop ref n' (S i)
                 (append_to result ("[" ++ JSON_stringify (value seg) ++ "]"))
      end
  end.

(** [refToString], opa.ts lines 119-131: reading [ref[0].value] of an empty
    array throws a [TypeError]. *)
Definition refToString (ref : list segment) : completion (option JS.json) :=
  match nth_error ref 0 with
  | None => Throw TypeError
  | Some root =>
      let result := value root in
      refToString_loop ref (List.length ref - 1) 1 result
  end.

(** ** The process invoker *)

(** What a call does to the world around it, in order. *)
Inductive event : Type :=
| PromptForInstall
| ConsoleLog (items : list string)
| Spawn (path : string) (args : list string)
| StdinWrite (data : string)
| StdinEnd.

(** A computation: the events it caused and how it ended. *)
Definition M (A : Type) : Type := (list event * completion A)%type.

Definition ret {A : Type} (a : A) : M A := ([], Return a).

Definition throw {A : Type} (e : error) : M A := ([], Throw e).

Definition emit (e : event) : M unit := ([e], Return tt).

Definition bind {A B : Type} (m : M A) (f : A -> M B) : M B :=
  match m with
  | (t, Return a) => let '(t', r) := f a in ((t ++ t')%list, r)
  | (t, Throw e) => (t, Throw e)
  end.

Notation "m ;; k" := (bind m (fun _ => k))
  (at level 61, right associativity).

(** The exit code as [console.log] prints it. *)
Definition code_toString (code : option Z) : string :=
  match code with
  | Some z => JS.number_toString z
  | None => "null"
  end.

(** What the [exit] event of a child process reports. *)
Record exit_report : Type := {
  exit_code : option Z;
  exit_stderr : string;
  exit_stdout : string
}.

Section ProcessInvoker.

(** [vscode.workspace.getConfiguration('opa').get('path')]: [None] when it
    is [undefined] or [null]. *)
Variable configured_path : option string.
(** [commandExistsSync] of command-exists and [existsSync] of fs. *)
Variable commandExistsSync : string -> bool.
Variable existsSync : string -> bool.
(** The run of the program at a path with arguments and standard input:
    the buffers accumulated from its [data] events and its exit code, or
    [None] when no [exit] event comes. *)
Variable child : string -> list string -> string -> option exit_report.
(** [JSON.parse]: [None] when it throws a [SyntaxError]. *)
Variable JSON_parse : string -> option JS.json.

(** [runWithStatus], opa.ts lines 167-206. *)
Definition runWithStatus (path : string) (args : list string) (stdin : string)
    (cb : option Z -> string -> string -> M unit) : M unit :=
  let opaPath := configured_path in
  let existsOnPath := commandExistsSync path in
  let existsInUserSettings :=
    match opaPath with
    | Some p => existsSync p
    | None => false
    end in
  if negb (existsOnPath || existsInUserSettings) then
    emit PromptForInstall
  else
    let path :=
      match opaPath with
      | Some p => if existsInUserSettings then p else path
      | None => path
      end in
    emit (ConsoleLog ["spawn:"; path; "args:"; JS.join args]) ;;
    emit (Spawn path args) ;;
    emit (StdinWrite stdin) ;;
    emit StdinEnd ;;
    match child path args stdin with
    | None => ret tt
    | Some report =>
        let code := exit_code report in
        let stderr := exit_stderr report in
        let stdout := exit_stdout report in
        emit (ConsoleLog ["code:"; code_toString code]) ;;
        emit (ConsoleLog ["stdout:"; stdout]) ;;
        emit (ConsoleLog ["stderr:"; stderr]) ;;
        cb code stderr stdout
    end.

(** The callback [run] hands to [runWithStatus], opa.ts lines 152-162. *)
Definition run_callback (cb : string -> JS.json -> M unit)
    (code : option Z) (stderr stdout : string) : M unit :=
  if match code with Some 0 => false | _ => true end then
    if negb (stdout =? "")%string
    then cb stdout (JS.JString "")
    else cb stderr (JS.JString "")
  else
    match JSON_parse stdout with
    | Some result => cb "" result
    | None => throw SyntaxError
    end.

(** [run], opa.ts lines 151-163. *)
Definition run (path : string) (args : list string) (stdin : string)
    (cb : string -> JS.json -> M unit) : M unit :=
  runWithStatus path args stdin (run_callback cb).

End ProcessInvoker.

(** ** The flag and path selection *)

(** What [getDataDir] reads of a [vscode.Uri]: its [fsPath] and the result
    of its [toString()]. *)
Record Uri : Type := {
  fsPath : string;
  Uri_toString : string
}.

Section Flags.

(** [cp.spawnSync], as for [getOPAVersionString]. *)
Variable spawnSync : string -> list string -> SpawnSyncReturns.

(** [getDataDir], opa.ts lines 13-20. *)
Definition getDataDir (uri : Uri) : string :=
  if negb (installedOPASameOrNewerThan spawnSync "0.14.0-dev")
  then fsPath uri
  else Uri_toString uri.

(** [canUseBundleFlags], opa.ts lines 22-24. *)
Definition canUseBundleFlags : bool :=
  installedOPASameOrNewerThan spawnSync "0.14.0-dev".

(** [dataParam], opa.ts lines 26-31. *)
Definition dataParam : string :=
  if canUseBundleFlags then "--bundle" else "--data".

End Flags.

(** ** Parsing a file *)

Section ParseFile.

Variable configured_path : option string.
Variable commandExistsSync : string -> bool.
Variable existsSync : string -> bool.
Variable child : string -> list string -> string -> option exit_report.
Variable JSON_parse : string -> option JS.json.
(** [getPackage] and [getImports] of [./util]: what they return for a
    parsed module, or the exception they throw. *)
Variable getPackage : JS.json -> M string.
Variable getImports : JS.json -> M (list string).

(** The callback [parse] hands to [run], opa.ts lines 138-146. *)
Definition parse_callback (cb : string -> list string -> M unit)
    (onerror : string -> M unit) (error : string) (result : JS.json) : M unit :=
  if negb (error =? "")%string then onerror error
  else
    bind (getPackage result) (fun pkg =>
    bind (getImports result) (fun imports =>
    cb pkg imports)).

(** [parse], opa.ts lines 137-147. *)
Definition parse (opaPath path : string)
    (cb : string -> list string -> M unit) (onerror : string -> M unit)
  : M unit :=
  run configured_path commandExistsSync existsSync child JSON_parse
      opaPath ["parse"; path; "--format"; "json"] ""
      (parse_callback cb onerror).

End ParseFile.

(** ** Reference descriptions

    The functions below say what the operations compute without following
    how [opa.ts] computes it; the theorems relate the two. *)

(** [cut sep s] cuts [s] at the first occurrence of [sep]: the text before
    it and the text after it, or [None] when [sep] does not occur. *)
Fixpoint cut (sep s : string) : option (string * string) :=
  if prefix sep s then Some (EmptyString, JS.drop (String.length sep) s)
  else
    match s with
    | EmptyString => None
    | String c rest =>
        match cut sep rest with
        | Some (b, a) => Some (String c b, a)
        | None => None
        end
    end.

(** The text of [s] before the first occurrence of [sep]; all of [s] when
    there is none. *)
Definition before (sep s : string) : string :=
  match cut sep s with
  | Some (b, _) => b
  | None => s
  end.

(** The numeric fields and the patch of a parsed version. *)
Definition major (v : list any) : JS.number := ToNumber (index v 0).
Definition minor (v : list any) : JS.number := ToNumber (index v 1).
Definition point (v : list any) : JS.number := ToNumber (index v 2).
Definition patch (v : list any) : string :=
  match index v 3 with
  | VString s => s
  | _ => EmptyString
  end.

(** [x > y] on numbers. *)
Definition number_gt (x y : JS.number) : bool :=
  match JS.number_lt y x with
  | Some r => r
  | None => false
  end.

(** A version read off a string of the form
    [<major>.<minor>.<point>[-<patch>]]: the first three pieces between
    dots, the third cut at its first dash; [patch_of] turns the text after
    that dash into the patch. *)
Definition Parse_by (patch_of : string -> string) (s : string) : list any :=
  match cut "." s with
  | None => []
  | Some (part0, rest1) =>
      match cut "." rest1 with
      | None => []
      | Some (part1, rest2) =>
          let part2 := before "." rest2 in
          [VNumber (JS.Number part0);
           VNumber (JS.Number part1);
           VNumber (JS.Number (before "-" part2));
           VString (match cut "-" part2 with
                    | Some (_, after) => patch_of after
                    | None => EmptyString
                    end)]
      end
  end.

(** The patch is all the text after the first dash. *)
Definition Parse_first_dash : string -> list any := Parse_by (fun after => after).

(** The patch ends where a second dash begins. *)
Definition Parse_two_pieces : string -> list any := Parse_by (before "-").

(** The value a line of the version report gives for the label [Version]:
    the line is trimmed and cut at its first [": "]; [second_of] turns the
    text after it into the second part. *)
Definition version_of_line (second_of : string -> string) (line : string)
  : option string :=
  match cut ": " (JS.trim line) with
  | Some (label, after) =>
      if (label =? "Version")%string then Some (second_of after) else None
  | None => None
  end.

(** The first line that gives a value decides. *)
Fixpoint first_version (second_of : string -> string) (lines : list string)
  : string :=
  match lines with
  | [] => EmptyString
  | line :: rest =>
      match version_of_line second_of line with
      | Some v => v
      | None => first_version second_of rest
      end
  end.

Definition GetInstalledVersionString_by (second_of : string -> string)
    (result : SpawnSyncReturns) : string :=
  match status result with
  | Some 0 => first_version second_of (JS.split_all line_feed (stdout result))
  | _ => EmptyString
  end.

(** The patch rule: an empty patch is newer than a non-empty one, and two
    patches that are both empty or both non-empty compare as strings. *)
Definition patch_decides (pa pb : string) : bool :=
  if (pa =? "")%string && negb (pb =? "")%string then true
  else if negb (pa =? "")%string && (pb =? "")%string then false
  else (pb <=? pa)%string.

(** What a segment after the first adds to the formatted ref. *)
Definition contribution (seg : segment) : string :=
  if type_is_string seg && regoVarPattern_test (value seg)
  then "." ++ ToString (value seg)
  else "[" ++ JSON_stringify (value seg) ++ "]".

(** The formatted ref as one concatenation. *)
Definition Format (root : segment) (rest : list segment) : option JS.json :=
  match rest with
  | [] => value root
  | _ => Some (JS.JString (ToString (value root)
                            ++ String.concat "" (map contribution rest)))
  end.

(** What the loop makes of [result] over the segments still to come. *)
Definition Format_from (result : option JS.json) (rest : list segment)
  : option JS.json :=
  match rest with
  | [] => result
  | _ => Some (JS.JString (ToString result
                            ++ String.concat "" (map contribution rest)))
  end.

(** The segments of the ref [input.a["b-c"][0]]. *)
Definition segment_input : segment :=
  {| type := None; value := Some (JS.JString "input") |}.
Definition segment_a : segment :=
  {| type := Some (JS.JString "string"); value := Some (JS.JString "a") |}.
Definition segment_b_c : segment :=
  {| type := Some (JS.JString "string"); value := Some (JS.JString "b-c") |}.
Definition segment_0 : segment :=
  {| type := Some (JS.JString "number"); value := Some (JS.JNumber 0) |}.

(** An identifier: a letter or an underscore, then letters, digits and
    underscores. *)
Inductive identifier : string -> Prop :=
| identifier_intro (c : ascii) (rest : string) :
    JS.isLetter c || JS.isUnderscore c = true ->
    (forall d, In d (list_ascii_of_string rest) ->
               JS.isLetter d || JS.isDigit d || JS.isUnderscore d = true) ->
    identifier (String c rest).

(** The events of spawning [exe] and feeding it [stdin]. *)
Definition spawn_events (exe : string) (args : list string) (stdin : string)
  : list event :=
  [ConsoleLog ["spawn:"; exe; "args:"; JS.join args];
   Spawn exe args; StdinWrite stdin; StdinEnd].

(** The events of the [exit] handler before it calls back. *)
Definition exit_events (report : exit_report) : list event :=
  [ConsoleLog ["code:"; code_toString (exit_code report)];
   ConsoleLog ["stdout:"; exit_stdout report];
   ConsoleLog ["stderr:"; exit_stderr report]].

Section Locate.

Variable configured_path : option string.
Variable commandExistsSync : string -> bool.
Variable existsSync : string -> bool.
Variable child : string -> list string -> string -> option exit_report.

(** The executable a call resolves to: the configured path when it names
    an existing file, else [path] when it is found on the search path. *)
Definition Locate (path : string) : option string :=
  match configured_path with
  | Some p =>
      if existsSync p then Some p
      else if commandExistsSync path then Some path else None
  | None => if commandExistsSync path then Some path else None
  end.

(** A call that spawns [exe]: the callback gets what the [exit] event
    reports, if it comes. *)
Definition invoke (exe : string) (args : list string) (stdin : string)
    (cb : option Z -> string -> string -> M unit) : M unit :=
  match child exe args stdin with
  | None => (spawn_events exe args stdin, Return tt)
  | Some report =>
      let '(t, r) := cb (exit_code report) (exit_stderr report)
                        (exit_stdout report) in
      ((spawn_events exe args stdin ++ exit_events report ++ t)%list, r)
  end.

End Locate.

(** A world to run the examples in: [opa] is on the search path, the
    configured path is [/opt/opa] and exists in [sample_existsSync] only. *)
Definition sample_commandExistsSync (path : string) : bool :=
  (path =? "opa")%string.

Definition sample_existsSync (path : string) : bool :=
  (path =? "/opt/opa")%string.

Definition no_file (path : string) : bool := false.

(** A program that exits according to its first argument. *)
Definition sample_child (exe : string) (args : list string) (stdin : string)
  : option exit_report :=
  match args with
  | "eval" :: _ =>
      Some {| exit_code := Some 0; exit_stderr := ""; exit_stdout := "true" |}
  | "garbled" :: _ =>
      Some {| exit_code := Some 0; exit_stderr := ""; exit_stdout := "{" |}
  | "check" :: _ =>
      Some {| exit_code := Some 1; exit_stderr := "warning";
              exit_stdout := "structured error" |}
  | "boom" :: _ =>
      Some {| exit_code := Some 1; exit_stderr := "boom"; exit_stdout := "" |}
  | _ => None
  end.

(** A decoder of the JSON literals, enough for [sample_child]. *)
Definition decode_literal (text : string) : option JS.json :=
  if (text =? "true")%string then Some (JS.JBoolean true)
  else if (text =? "false")%string then Some (JS.JBoolean false)
  else if (text =? "null")%string then Some JS.JNull
  else None.

(** A callback that records its arguments in the log. *)
Definition record_callback (error : string) (result : JS.json) : M unit :=
  emit (ConsoleLog ["callback:"; error; JS.stringify result]).

(** [run] in that world, with [opa] found on the search path only. *)
Definition sample_run (args : list string) : M unit :=
  run None sample_commandExistsSync no_file sample_child decode_literal
      "opa" args "" record_callback.

(** A parsed version all of whose numeric fields are numbers. *)
Definition numeric (v : list any) : Prop :=
  major v <> JS.NaN /\ minor v <> JS.NaN /\ point v <> JS.NaN.

(** The value of a decimal numeral read from its first digit on, from the
    value [acc] of the digits before it. *)
Fixpoint uint_acc (d : Decimal.uint) (acc : Z) : Z :=
  match d with
  | Decimal.Nil => acc
  | Decimal.D0 l => uint_acc l (acc * 10 + 0)
  | Decimal.D1 l => uint_acc l (acc * 10 + 1)
  | Decimal.D2 l => uint_acc l (acc * 10 + 2)
  | Decimal.D3 l => uint_acc l (acc * 10 + 3)
  | Decimal.D4 l => uint_acc l (acc * 10 + 4)
  | Decimal.D5 l => uint_acc l (acc * 10 + 5)
  | Decimal.D6 l => uint_acc l (acc * 10 + 6)
  | Decimal.D7 l => uint_acc l (acc * 10 + 7)
  | Decimal.D8 l => uint_acc l (acc * 10 + 8)
  | Decimal.D9 l => uint_acc l (acc * 10 + 9)
  end.

(** A version written out: three integers between dots, and a patch after
    a dash when there is one. *)
Definition version_string (a b c : Z) (p : option string) : string :=
  JS.number_toString a ++ "." ++ JS.number_toString b ++ "."
  ++ JS.number_toString c
  ++ match p with
     | Some patch => "-" ++ patch
     | None => EmptyString
     end.

(** The characters a patch can have for the version string to parse back:
    no dot and no dash. *)
Definition patch_char (c : ascii) : bool :=
  negb (c =? ".")%char && negb (c =? "-")%char.

(** The order of versions on their fields: major, minor and point as
    integers, then the patch rule. *)
Definition newer_by_fields (a0 a1 a2 : Z) (pa : string)
    (b0 b1 b2 : Z) (pb : string) : bool :=
  if b0 <? a0 then true
  else if a0 <? b0 then false
  else if b1 <? a1 then true
  else if a1 <? b1 then false
  else if b2 <? a2 then true
  else if a2 <? b2 then false
  else patch_decides pa pb.

(** The integers [Number] reads back exactly from their digits. *)
Definition safe (z : Z) : Prop := 0 <= z < 2 ^ 53.

(** The patch of a version written out: empty when there is none. *)
Definition patch_of (p : option string) : string :=
  match p with
  | Some patch => patch
  | None => EmptyString
  end.

(** A patch that can be written out and read back. *)
Definition patch_ok (p : option string) : Prop :=
  forall patch, p = Some patch -> JS.all_chars patch_char patch = true.

(** The characters of a version as [opa version] prints it: letters,
    digits, dots and dashes. *)
Definition version_char (c : ascii) : bool :=
  JS.isLetter c || JS.isDigit c || (c =? ".")%char || (c =? "-")%char.

(** A report of [opa version] whose first line gives the version [v]. *)
Definition version_report (v rest : string) : SpawnSyncReturns :=
  {| status := Some 0;
     stdout := "Version: " ++ v ++ line_feed ++ rest |}.

(** A patch of letters and digits. *)
Definition patch_plain (p : option string) : Prop :=
  forall patch,
    p = Some patch ->
    JS.all_chars (fun c => JS.isLetter c || JS.isDigit c) patch = true.

(** A segment of type [string] with the value [v]. *)
Definition string_segment (v : string) : segment :=
  {| type := Some (JS.JString "string"); value := Some (JS.JString v) |}.

(** A number segment, to run the examples. *)
Definition segment_7 : segment :=
  {| type := Some (JS.JString "number"); value := Some (JS.JNumber 7) |}.

(** The number of occurrences of a character in a string. *)
Fixpoint count_char (c : ascii) (s : string) : nat :=
  match s with
  | String x rest =>
      if (x =? c)%char then S (count_char c rest) else count_char c rest
  | EmptyString => O
  end.

(** What was observed when the child has exited. *)
Definition observed (exe : string) (args : list string) (stdin : string)
    (report : exit_report) : M unit :=
  ((spawn_events exe args stdin ++ exit_events report)%list, Return tt).

(** The arguments [parse] runs the executable with. *)
Definition parse_args (path : string) : list string :=
  ["parse"; path; "--format"; "json"].

(** What [parse] does with a decoded module. *)
Definition deliver (getPackage : JS.json -> M string)
    (getImports : JS.json -> M (list string))
    (cb : string -> list string -> M unit) (result : JS.json) : M unit :=
  bind (getPackage result) (fun pkg =>
  bind (getImports result) (fun imports =>
  cb pkg imports)).

(** A program for the examples of [parse]: it exits according to the file
    it is asked to parse. *)
Definition sample_parser (exe : string) (args : list string) (stdin : string)
  : option exit_report :=
  match args with
  | [_; "ok.rego"; _; _] =>
      Some {| exit_code := Some 0; exit_stderr := ""; exit_stdout := "null" |}
  | [_; "bad.rego"; _; _] =>
      Some {| exit_code := Some 1; exit_stderr := "1 error occurred";
              exit_stdout := "" |}
  | [_; "silent.rego"; _; _] =>
      Some {| exit_code := Some 2; exit_stderr := ""; exit_stdout := "" |}
  | _ => None
  end.

Definition sample_getPackage (result : JS.json) : M string :=
  ret "data.example".

Definition sample_getImports (result : JS.json) : M (list string) :=
  ret ["data.users"].

Definition record_package (pkg : string) (imports : list string) : M unit :=
  emit (ConsoleLog ("package:" :: pkg :: imports)).

Definition record_error (message : string) : M unit :=
  emit (ConsoleLog ["error:"; message]).

(** [parse] in that world, with [opa] found on the search path only. *)
Definition sample_parse (path : string) : M unit :=
  parse None sample_commandExistsSync no_file sample_parser decode_literal
        sample_getPackage sample_getImports "opa" path
        record_package record_error.

(** White space within a line: any white space but the line feed. *)
Definition blank (c : ascii) : bool :=
  JS.isWhiteSpace c && negb (c =? "010")%char.

(** What [run] can do: prompt, spawn a child that never exits, or go on
    from the exit of the child with an exception or with one call of the
    callback. *)
Inductive run_outcome (cb : string -> JS.json -> M unit) : M unit -> Prop :=
| run_prompted :
    run_outcome cb ([PromptForInstall], Return tt)
| run_pending (exe : string) (args : list string) (stdin : string) :
    run_outcome cb (spawn_events exe args stdin, Return tt)
| run_thrown (exe : string) (args : list string) (stdin : string)
    (report : exit_report) :
    run_outcome cb (observed exe args stdin report ;; throw SyntaxError)
| run_called (exe : string) (args : list string) (stdin : string)
    (report : exit_report) (error : string) (result : JS.json) :
    error = "" \/ result = JS.JString "" ->
    run_outcome cb (observed exe args stdin report ;; cb error result).

(** ** Facts about the built-ins *)

Section StringFacts.

Lemma append_empty_r (s : string) : s ++ "" = s.
Proof. induction s as [|c s IH]; simpl; [reflexivity | now rewrite IH]. Qed.

Lemma append_assoc (s t u : string) : (s ++ t) ++ u = s ++ t ++ u.
Proof. induction s as [|c s IH]; simpl; [reflexivity | now rewrite IH]. Qed.

Lemma drop_append (s t : string) : JS.drop (String.length s) (s ++ t) = t.
Proof. induction s as [|c s IH]; simpl; [now destruct t | exact IH]. Qed.

(** [prefix] holds exactly of the strings that start with the separator. *)
Lemma prefix_append (sep s : string) :
  prefix sep s = true <-> exists t, s = sep ++ t.
Proof.
  revert s; induction sep as [|a sep IH]; intros s; simpl.
  - destruct s; split; eauto.
  - destruct s as [|b s]; simpl.
    + split; [discriminate | intros [t H]; discriminate].
    + destruct (ascii_dec a b) as [->|Hab].
      * rewrite IH. split; intros [t Ht].
        -- exists t. now rewrite Ht.
        -- exists t. now injection Ht.
      * split; [discriminate | intros [t H]; congruence].
Qed.

Lemma prefix_drop (sep s : string) :
  prefix sep s = true -> s = sep ++ JS.drop (String.length sep) s.
Proof.
  intros Hp. apply prefix_append in Hp as [t ->]. now rewrite drop_append.
Qed.

(** Stepping over what is left of a match is dropping it. *)
Lemma split_from_skip (sep : string) (s : string) :
  forall k piece,
    JS.split_from sep k piece s = JS.split_from sep 0 piece (JS.drop k s).
Proof.
  induction s as [|c s IH]; intros k piece.
  - now destruct k.
  - destruct k as [|k]; [reflexivity|]. simpl. apply IH.
Qed.

(** The scan cuts at the first occurrence of the separator and goes on
    after it. *)
Lemma split_from_cut (a : ascii) (sep' : string) (s : string) :
  let sep := String a sep' in
  forall piece,
    JS.split_from sep 0 piece s =
    match cut sep s with
    | None => [piece ++ s]
    | Some (b, rest) => (piece ++ b) :: JS.split_from sep 0 "" rest
    end.
Proof.
  intros sep. induction s as [|c s IH]; intros piece.
  - simpl. now rewrite append_empty_r.
  - cbn [JS.split_from cut].
    destruct (prefix sep (String c s)) eqn:Hp.
    + rewrite append_empty_r, split_from_skip. subst sep. simpl.
      now rewrite Nat.sub_0_r.
    + rewrite IH. destruct (cut sep s) as [[b rest]|].
      * now rewrite append_assoc.
      * now rewrite append_assoc.
Qed.

Lemma split_all_cut (a : ascii) (sep' : string) (s : string) :
  let sep := String a sep' in
  JS.split_all sep s =
  match cut sep s with
  | None => [s]
  | Some (b, rest) => b :: JS.split_all sep rest
  end.
Proof.
  intros sep. unfold JS.split_all. subst sep.
  rewrite split_from_cut. reflexivity.
Qed.

(** [cut] finds an occurrence, and no occurrence starts earlier. *)
Lemma cut_sound (sep s b rest : string) :
  cut sep s = Some (b, rest) -> s = b ++ sep ++ rest.
Proof.
  revert b rest; induction s as [|c s IH]; intros b rest; cbn [cut].
  - destruct (prefix sep "") eqn:Hp; [|discriminate].
    intros [= <- <-]. now apply prefix_drop.
  - destruct (prefix sep (String c s)) eqn:Hp.
    + intros [= <- <-]. now apply prefix_drop.
    + destruct (cut sep s) as [[b' rest']|]; [|discriminate].
      intros [= <- <-]. simpl. now rewrite <- (IH b' rest').
Qed.

Lemma cut_first (sep s b rest : string) :
  cut sep s = Some (b, rest) ->
  forall b' rest', s = b' ++ sep ++ rest' ->
                   (String.length b <= String.length b')%nat.
Proof.
  revert b rest; induction s as [|c s IH]; intros b rest; cbn [cut].
  - destruct (prefix sep ""); [|discriminate].
    intros [= <- <-] ? ? _. simpl. lia.
  - destruct (prefix sep (String c s)) eqn:Hp.
    + intros [= <- <-] ? ? _. simpl. lia.
    + destruct (cut sep s) as [[b0 rest0]|] eqn:Hc; [|discriminate].
      intros [= <- <-] b' rest' Hs. destruct b' as [|c' b'].
      * simpl in Hs. assert (prefix sep (String c s) = true)
          by (apply prefix_append; eauto). congruence.
      * simpl in Hs. injection Hs as -> ->. simpl.
        specialize (IH _ _ eq_refl _ _ eq_refl). lia.
Qed.

Lemma cut_none (sep s : string) :
  cut sep s = None -> forall b rest, s <> b ++ sep ++ rest.
Proof.
  induction s as [|c s IH]; cbn [cut].
  - destruct (prefix sep "") eqn:Hp; [discriminate|].
    intros _ b rest Hs. destruct b; [|discriminate].
    assert (prefix sep "" = true) by (apply prefix_append; eauto).
    congruence.
  - destruct (prefix sep (String c s)) eqn:Hp; [discriminate|].
    destruct (cut sep s) as [[b0 rest0]|] eqn:Hc; [discriminate|].
    intros _ b rest Hs. destruct b as [|c' b].
    + assert (prefix sep (String c s) = true)
        by (apply prefix_append; eauto). congruence.
    + simpl in Hs. injection Hs as -> ->. now apply (IH eq_refl b rest).
Qed.

End StringFacts.

Section SplitLimit.

Variables (a : ascii) (sep' : string).
Let sep := String a sep'.

(** The first piece is the text before the first separator. *)
Lemma split_limit_1 (s : string) : JS.split sep 1 s = [before sep s].
Proof.
  unfold JS.split, before, sep. rewrite split_all_cut.
  now destruct (cut _ s) as [[b rest]|].
Qed.

(** With a limit of two, the second piece stops at the second separator. *)
Lemma split_limit_2 (s : string) :
  JS.split sep 2 s =
  match cut sep s with
  | None => [s]
  | Some (b, rest) => [b; before sep rest]
  end.
Proof.
  unfold JS.split, sep. rewrite split_all_cut.
  destruct (cut _ s) as [[b rest]|]; [|reflexivity].
  change (firstn 2 (b :: ?l)) with (b :: firstn 1 l).
  pose proof (split_limit_1 rest) as H1. unfold JS.split, sep in H1.
  now rewrite H1.
Qed.

(** With a limit of three, the third piece stops at the third separator. *)
Lemma split_limit_3 (s : string) :
  JS.split sep 3 s =
  match cut sep s with
  | None => [s]
  | Some (b, rest) => b :: JS.split sep 2 rest
  end.
Proof.
  unfold JS.split at 1. unfold sep. rewrite split_all_cut.
  now destruct (cut _ s) as [[b rest]|].
Qed.

End SplitLimit.

(** ** The version resolver: parsing *)

(** What the code computes, for every string: [parseOPAVersion] keeps the
    first three pieces of [s] between dots and returns the empty array when
    there are fewer; otherwise major and minor are the numeric values of
    the first two pieces, point is the numeric value of the third piece up
    to its first dash, and the patch is the text between the first and the
    second dash of the third piece (up to its end when there is one dash
    only), empty without a dash. *)
Theorem parseOPAVersion_two_pieces (s : string) :
  parseOPAVersion s = Parse_two_pieces s.
Proof.
  unfold parseOPAVersion, Parse_two_pieces, Parse_by.
  rewrite split_limit_3.
  destruct (cut "." s) as [[part0 rest1]|]; [|reflexivity].
  rewrite split_limit_2.
  destruct (cut "." rest1) as [[part1 rest2]|]; [|reflexivity].
  cbn [List.length Nat.ltb Nat.leb part nth].
  rewrite split_limit_2.
  generalize (before "." rest2) as part2. intros part2.
  assert (Hbefore := eq_refl (before "-" part2)).
  unfold before at 2 in Hbefore. rewrite Hbefore.
  now destruct (cut "-" part2) as [[piece0 after]|].
Qed.

(** With two dashes in the third piece the patch is not the text after
    the first dash. *)
Lemma parseOPAVersion_not_first_dash :
  parseOPAVersion "0.14.0-rc-1" <> Parse_first_dash "0.14.0-rc-1".
Proof. vm_compute. discriminate. Qed.

(** The parse in terms of first occurrences. *)
Lemma parseOPAVersion_by_cut (s : string) :
  parseOPAVersion s = Parse_by (before "-") s.
Proof.
  unfold parseOPAVersion, Parse_by. rewrite split_limit_3.
  destruct (cut "." s) as [[part0 rest1]|]; [|reflexivity].
  rewrite split_limit_2.
  destruct (cut "." rest1) as [[part1 rest2]|]; [|reflexivity].
  cbn [List.length Nat.ltb Nat.leb part nth].
  rewrite split_limit_2. generalize (before "." rest2) as part2. intros part2.
  assert (Hbefore := eq_refl (before "-" part2)).
  unfold before at 2 in Hbefore. rewrite Hbefore.
  now destruct (cut "-" part2) as [[piece0 after]|].
Qed.

(** With one dash at most in the third piece, the patch is all the text
    after it. *)
Lemma parseOPAVersion_one_dash (s : string) :
  (forall part0 rest1 part1 rest2 piece0 after,
      cut "." s = Some (part0, rest1) ->
      cut "." rest1 = Some (part1, rest2) ->
      cut "-" (before "." rest2) = Some (piece0, after) ->
      cut "-" after = None) ->
  parseOPAVersion s = Parse_first_dash s.
Proof.
  intros Hone. rewrite parseOPAVersion_by_cut.
  unfold Parse_first_dash, Parse_by.
  destruct (cut "." s) as [[part0 rest1]|]; [|reflexivity].
  destruct (cut "." rest1) as [[part1 rest2]|] eqn:Hcut1; [|reflexivity].
  destruct (cut "-" (before "." rest2)) as [[piece0 after]|] eqn:Hcut2;
    [|reflexivity].
  assert (Hafter : before "-" after = after).
  { unfold before. now rewrite (Hone _ _ _ _ _ _ eq_refl Hcut1 Hcut2). }
  now rewrite Hafter.
Qed.

Example parseOPAVersion_rc_1 :
  parseOPAVersion "0.14.0-rc-1"
  = [VNumber (JS.Finite 0); VNumber (JS.Finite 14); VNumber (JS.Finite 0);
     VString "rc"].
Proof. vm_compute. reflexivity. Qed.

Example Parse_first_dash_rc_1 :
  Parse_first_dash "0.14.0-rc-1"
  = [VNumber (JS.Finite 0); VNumber (JS.Finite 14); VNumber (JS.Finite 0);
     VString "rc-1"].
Proof. vm_compute. reflexivity. Qed.

(** C3.  The claim takes the patch to be all the text after the first dash
    of the third piece, as the format [<major>.<minor>.<point>[-<patch>]]
    of the comment above [opaVersionSameOrNewerThan] has it.  At
    ["0.14.0-rc-1"] the code does otherwise: the patch it keeps is ["rc"],
    not ["rc-1"].  So ["0.14.0-rc-1"] and ["0.14.0-rc-2"] parse alike and
    the first counts as the same or newer than the second, and
    ["0.14.0--x"] has the empty patch of a release. *)
Theorem parseOPAVersion_second_dash :
  parseOPAVersion "0.14.0-rc-1"
  = [VNumber (JS.Finite 0); VNumber (JS.Finite 14); VNumber (JS.Finite 0);
     VString "rc"]
  /\ Parse_first_dash "0.14.0-rc-1"
     = [VNumber (JS.Finite 0); VNumber (JS.Finite 14); VNumber (JS.Finite 0);
        VString "rc-1"]
  /\ parseOPAVersion "0.14.0-rc-1" = parseOPAVersion "0.14.0-rc-2"
  /\ opaVersionSameOrNewerThan "0.14.0-rc-1" "0.14.0-rc-2" = true
  /\ sameOrNewer (Parse_first_dash "0.14.0-rc-1")
                 (Parse_first_dash "0.14.0-rc-2") = false
  /\ patch (parseOPAVersion "0.14.0--x") = ""
  /\ patch (Parse_first_dash "0.14.0--x") = "-x"
  /\ opaVersionSameOrNewerThan "0.14.0--x" "0.14.0" = true.
Proof. repeat split; vm_compute; reflexivity. Qed.

(** A parse has four fields or none. *)
Lemma parseOPAVersion_shape (s : string) :
  parseOPAVersion s = []
  \/ exists n0 n1 n2 p,
       parseOPAVersion s = [VNumber n0; VNumber n1; VNumber n2; VString p].
Proof.
  unfold parseOPAVersion.
  destruct (List.length (JS.split "." 3 s) <? 3)%nat; [now left|].
  right. eauto.
Qed.

(** ** The version resolver: the installed version *)

Lemma part_middle (pre post : list string) (line : string) :
  part (pre ++ line :: post) (List.length pre) = line.
Proof.
  unfold part. rewrite app_nth2, Nat.sub_diag by lia. reflexivity.
Qed.

(** The index loop returns what the first line with a value gives. *)
Lemma scan_lines_first_version (post : list string) :
  forall pre,
    scan_lines (pre ++ post) (List.length post) (List.length pre)
    = first_version (before ": ") post.
Proof.
  induction post as [|line post IH]; intros pre; [reflexivity|].
  cbn [List.length scan_lines first_version]. rewrite part_middle.
  unfold version_of_line. rewrite split_limit_2.
  assert (Hnext : scan_lines (pre ++ line :: post) (List.length post)
                             (S (List.length pre))
                  = first_version (before ": ") post).
  { specialize (IH (pre ++ [line])%list).
    rewrite <- app_assoc, length_app, Nat.add_1_r in IH. exact IH. }
  destruct (cut ": " (JS.trim line)) as [[label after]|]; [|exact Hnext].
  cbn [List.length Nat.ltb Nat.leb part nth].
  now destruct (label =? "Version")%string.
Qed.

(** C6, as amended.  [getOPAVersionString] is empty when the status of the
    version query is not zero; otherwise every line of its output is trimmed
    and split at [": "] with the first two parts kept, and the result is the
    second part, the text between the first and the second [": "], of the
    first line that has two parts and whose first part is [Version]; it is
    empty when there is no such line. *)
Theorem getOPAVersionString_two_parts
    (spawnSync : string -> list string -> SpawnSyncReturns) :
  getOPAVersionString spawnSync
  = GetInstalledVersionString_by (before ": ") (spawnSync "opa" ["version"]).
Proof.
  unfold getOPAVersionString, GetInstalledVersionString_by.
  destruct (status _) as [[| |]|]; try reflexivity.
  apply (scan_lines_first_version _ []).
Qed.

(** C6, as stated, fails: when a second [": "] follows on the line, the
    result is not all the text after the first one. *)
Lemma getOPAVersionString_not_first_cut :
  getOPAVersionString
    (fun _ _ => {| status := Some 0; stdout := "Version: 0.14.0: x" |})
  <> GetInstalledVersionString_by
       (fun after => after)
       {| status := Some 0; stdout := "Version: 0.14.0: x" |}.
Proof. vm_compute. discriminate. Qed.

Example GetInstalledVersionString_first_cut :
  GetInstalledVersionString_by
    (fun after => after)
    {| status := Some 0; stdout := "Version: 0.14.0: x" |}
  = "0.14.0: x".
Proof. vm_compute. reflexivity. Qed.

(** On a report whose lines have one [": "] at most, the second part is all
    the text after it. *)
Lemma first_version_one_cut (lines : list string) :
  (forall line label after,
      In line lines ->
      cut ": " (JS.trim line) = Some (label, after) ->
      cut ": " after = None) ->
  first_version (before ": ") lines = first_version (fun after => after) lines.
Proof.
  induction lines as [|line lines IH]; intros Hone; [reflexivity|].
  cbn [first_version]. unfold version_of_line.
  rewrite IH by (intros l lb af Hin; apply Hone; now right).
  destruct (cut ": " (JS.trim line)) as [[label after]|] eqn:Hcut;
    [|reflexivity].
  unfold before. now rewrite (Hone line label after (or_introl eq_refl) Hcut).
Qed.

Example getOPAVersionString_second_cut :
  getOPAVersionString
    (fun _ _ => {| status := Some 0; stdout := "Version: 0.14.0: x" |})
  = "0.14.0".
Proof. vm_compute. reflexivity. Qed.

Example getOPAVersionString_report :
  getOPAVersionString
    (fun _ _ => {| status := Some 0;
                   stdout := "Version: 0.14.0-dev" ++ line_feed
                             ++ "Build Commit: 3be55ed6" ++ line_feed |})
  = "0.14.0-dev".
Proof. vm_compute. reflexivity. Qed.

(** ** The version resolver: comparison *)

Section CompareFacts.

Lemma string_compare_refl (s : string) : (s ?= s)%string = Eq.
Proof.
  pose proof (String.compare_antisym s s) as H.
  destruct (s ?= s)%string; [reflexivity | discriminate | discriminate].
Qed.

Lemma string_ltb_irrefl (s : string) : (s <? s)%string = false.
Proof. unfold String.ltb. now rewrite string_compare_refl. Qed.

(** [a >= b] on strings is [b <= a]. *)
Lemma ge_strings (a b : string) :
  ge (VString a) (VString b) = (b <=? a)%string.
Proof.
  unfold ge, less_than, String.ltb, String.leb.
  rewrite (String.compare_antisym a b).
  now destruct (b ?= a)%string.
Qed.

Lemma gt_numbers (x y : JS.number) :
  gt (VNumber x) (VNumber y) = number_gt x y.
Proof. reflexivity. Qed.

Lemma number_gt_irrefl (x : JS.number) : number_gt x x = false.
Proof.
  destruct x as [|[|]|q]; try reflexivity.
  unfold number_gt, JS.number_lt.
  assert (Qle_bool q q = true) as -> by (apply Qle_bool_iff, Qle_refl).
  reflexivity.
Qed.

(** Of two numbers at most one is greater than the other. *)
Lemma number_gt_asym (x y : JS.number) :
  number_gt x y = true -> number_gt y x = false.
Proof.
  unfold number_gt, JS.number_lt.
  destruct x as [|[|]|p], y as [|[|]|q]; try discriminate; try reflexivity.
  intros G. apply negb_true_iff in G. apply negb_false_iff.
  apply Qle_bool_iff.
  destruct (Qlt_le_dec q p) as [Hlt|Hle].
  - now apply Qlt_le_weak.
  - apply Qle_bool_iff in Hle. congruence.
Qed.

(** Numbers that are equal are not greater one than the other. *)
Lemma number_eq_not_gt (x y : JS.number) :
  JS.number_eq x y = true -> number_gt x y = false /\ number_gt y x = false.
Proof.
  destruct x as [|[|]|p], y as [|[|]|q]; try discriminate;
    try (intros _; split; reflexivity).
  unfold JS.number_eq, number_gt, JS.number_lt. intros H.
  apply Qeq_bool_iff in H.
  assert (Qle_bool p q = true) as -> by (apply Qle_bool_iff; rewrite H; apply Qle_refl).
  assert (Qle_bool q p = true) as -> by (apply Qle_bool_iff; rewrite H; apply Qle_refl).
  split; reflexivity.
Qed.

(** No value is greater or smaller than [NaN]. *)
Lemma gt_NaN (x : any) :
  gt (VNumber JS.NaN) x = false /\ gt x (VNumber JS.NaN) = false.
Proof.
  unfold gt, less_than. split.
  - destruct x as [|n|s]; cbn [ToNumber]; unfold JS.number_lt.
    + reflexivity.
    + now destruct n as [|[|]|].
    + now destruct (JS.Number s) as [|[|]|].
  - destruct x as [|n|s]; cbn [ToNumber]; unfold JS.number_lt.
    + reflexivity.
    + now destruct n as [|[|]|].
    + now destruct (JS.Number s) as [|[|]|].
Qed.

Lemma gt_irrefl (x : any) : gt x x = false.
Proof.
  destruct x as [|n|s].
  - reflexivity.
  - apply number_gt_irrefl.
  - unfold gt, less_than. apply string_ltb_irrefl.
Qed.

(** The comparison of two parsed versions, field by field. *)
Lemma sameOrNewer_fields (a0 a1 a2 b0 b1 b2 : JS.number) (pa pb : string) :
  sameOrNewer [VNumber a0; VNumber a1; VNumber a2; VString pa]
              [VNumber b0; VNumber b1; VNumber b2; VString pb]
  = if number_gt a0 b0 then true
    else if number_gt b0 a0 then false
    else if number_gt a1 b1 then true
    else if number_gt b1 a1 then false
    else if number_gt a2 b2 then true
    else if number_gt b2 a2 then false
    else patch_decides pa pb.
Proof.
  unfold sameOrNewer, patch_decides.
  cbn [List.length Nat.eqb negb orb compare_fields index nth strict_eq].
  rewrite !gt_numbers, ge_strings.
  repeat match goal with |- context [if ?c then _ else _] => destruct c end;
    reflexivity.
Qed.

End CompareFacts.

(** A parse of four fields is three numbers and a string. *)
Lemma parseOPAVersion_fields (s : string) :
  List.length (parseOPAVersion s) = 4%nat ->
  exists n0 n1 n2 p,
    parseOPAVersion s = [VNumber n0; VNumber n1; VNumber n2; VString p].
Proof.
  intros Hlen. destruct (parseOPAVersion_shape s) as [Hnil|Hfields].
  - rewrite Hnil in Hlen. discriminate.
  - exact Hfields.
Qed.

Ltac parsed s H :=
  let n0 := fresh "n0" in
  let n1 := fresh "n1" in
  let n2 := fresh "n2" in
  let p := fresh "p" in
  let E := fresh "E" in
  destruct (parseOPAVersion_fields s H) as (n0 & n1 & n2 & p & E);
  rewrite ?E in *.

Ltac decide_patch :=
  unfold patch_decides;
  repeat match goal with
         | |- context [(?p =? "")%string] =>
             destruct (String.eqb_spec p "")
         end;
  cbn [andb negb]; try reflexivity; try congruence; try tauto.

(** C1.  For versions [a] and [b] that both parse to four fields,
    [opaVersionSameOrNewerThan a b] compares major, then minor, then point
    as numbers: at the first of them where one side is greater, the result
    is true when it is [a]'s and false when it is [b]'s.  When all three are
    equal the patches decide: an empty patch against a non-empty one is
    newer, and otherwise the result is whether [a]'s patch is at least
    [b]'s in the order of strings. *)
Theorem opaVersionSameOrNewerThan_order (a b : string) :
  let va := parseOPAVersion a in
  let vb := parseOPAVersion b in
  let newer := opaVersionSameOrNewerThan a b in
  List.length va = 4%nat ->
  List.length vb = 4%nat ->
  (number_gt (major va) (major vb) = true -> newer = true) /\
  (number_gt (major vb) (major va) = true -> newer = false) /\
  (JS.number_eq (major va) (major vb) = true ->
   (number_gt (minor va) (minor vb) = true -> newer = true) /\
   (number_gt (minor vb) (minor va) = true -> newer = false) /\
   (JS.number_eq (minor va) (minor vb) = true ->
    (number_gt (point va) (point vb) = true -> newer = true) /\
    (number_gt (point vb) (point va) = true -> newer = false) /\
    (JS.number_eq (point va) (point vb) = true ->
     (patch va = "" -> patch vb <> "" -> newer = true) /\
     (patch va <> "" -> patch vb = "" -> newer = false) /\
     ((patch va = "" <-> patch vb = "") ->
      newer = (patch vb <=? patch va)%string)))).
Proof.
  intros va vb newer Ha Hb. subst va vb newer.
  unfold opaVersionSameOrNewerThan.
  parsed a Ha. parsed b Hb.
  rewrite sameOrNewer_fields.
  cbn [major minor point patch index nth ToNumber].
  split; [now intros ->|].
  split; [intros G; now rewrite (number_gt_asym _ _ G), G|].
  intros Q0. apply number_eq_not_gt in Q0 as [-> ->].
  split; [now intros ->|].
  split; [intros G; now rewrite (number_gt_asym _ _ G), G|].
  intros Q1. apply number_eq_not_gt in Q1 as [-> ->].
  split; [now intros ->|].
  split; [intros G; now rewrite (number_gt_asym _ _ G), G|].
  intros Q2. apply number_eq_not_gt in Q2 as [-> ->].
  repeat split; intros; decide_patch.
Qed.

Lemma opaVersionSameOrNewerThan_order_witness :
  opaVersionSameOrNewerThan "0.14.0" "0.14.0-dev" = true
  /\ opaVersionSameOrNewerThan "0.13.0" "0.14.0-dev" = false.
Proof.
  split.
  - destruct (opaVersionSameOrNewerThan_order "0.14.0" "0.14.0-dev"
                eq_refl eq_refl) as (_ & _ & Hmajor).
    destruct (Hmajor eq_refl) as (_ & _ & Hminor).
    destruct (Hminor eq_refl) as (_ & _ & Hpoint).
    destruct (Hpoint eq_refl) as (Hempty & _).
    apply Hempty; [reflexivity | discriminate].
  - destruct (opaVersionSameOrNewerThan_order "0.13.0" "0.14.0-dev"
                eq_refl eq_refl) as (_ & _ & Hmajor).
    destruct (Hmajor eq_refl) as (_ & Hminor & _).
    apply Hminor. reflexivity.
Defined.

Example sameOrNewer_0_15_0 :
  opaVersionSameOrNewerThan "0.15.0" "0.14.0-dev" = true.
Proof. vm_compute. reflexivity. Qed.

Example sameOrNewer_0_13_0 :
  opaVersionSameOrNewerThan "0.13.0" "0.14.0-dev" = false.
Proof. vm_compute. reflexivity. Qed.

Example sameOrNewer_0_14_0 :
  opaVersionSameOrNewerThan "0.14.0" "0.14.0-dev" = true.
Proof. vm_compute. reflexivity. Qed.

(** C2.  When the parse of [a] or of [b] has not exactly four fields, and
    then it is the empty array, [opaVersionSameOrNewerThan a b] is true; so
    it is for ["not-a-version"].  The result is a boolean in every case: a
    version that does not parse is never reported as an error. *)
Theorem opaVersionSameOrNewerThan_permissive :
  (forall a b : string,
      List.length (parseOPAVersion a) <> 4%nat
      \/ List.length (parseOPAVersion b) <> 4%nat ->
      opaVersionSameOrNewerThan a b = true)
  /\ (forall s : string,
         List.length (parseOPAVersion s) <> 4%nat -> parseOPAVersion s = [])
  /\ parseOPAVersion "not-a-version" = []
  /\ opaVersionSameOrNewerThan "not-a-version" "0.14.0-dev" = true.
Proof.
  repeat split.
  - intros a b H. unfold opaVersionSameOrNewerThan, sameOrNewer.
    destruct H as [H|H]; apply Nat.eqb_neq in H; rewrite H;
      cbn [negb orb]; [reflexivity | now rewrite orb_true_r].
  - intros s H. destruct (parseOPAVersion_shape s) as [E|(? & ? & ? & ? & E)];
      [exact E | now rewrite E in H].
Qed.

Lemma opaVersionSameOrNewerThan_permissive_witness :
  opaVersionSameOrNewerThan "0.14" "0.14.0-dev" = true
  /\ parseOPAVersion "0.14" = [].
Proof.
  split.
  - apply (proj1 opaVersionSameOrNewerThan_permissive). left. discriminate.
  - apply (proj1 (proj2 opaVersionSameOrNewerThan_permissive)). discriminate.
Defined.

(** C7.  A version that parses to four fields is the same or newer than
    itself. *)
Theorem opaVersionSameOrNewerThan_refl (a : string) :
  List.length (parseOPAVersion a) = 4%nat ->
  opaVersionSameOrNewerThan a a = true.
Proof.
  intros Ha. unfold opaVersionSameOrNewerThan. parsed a Ha.
  rewrite sameOrNewer_fields, !number_gt_irrefl.
  unfold patch_decides, String.leb. rewrite string_compare_refl.
  now destruct (p =? "")%string.
Qed.

Lemma opaVersionSameOrNewerThan_refl_witness :
  opaVersionSameOrNewerThan "0.14.0-dev" "0.14.0-dev" = true.
Proof. apply opaVersionSameOrNewerThan_refl. reflexivity. Defined.

(** The pieces between dots are at least three exactly when the parse has
    four fields. *)
Lemma parseOPAVersion_three_pieces (s : string) :
  (3 <= List.length (JS.split_all "." s))%nat ->
  List.length (parseOPAVersion s) = 4%nat.
Proof.
  intros H. unfold parseOPAVersion, JS.split.
  rewrite length_firstn, Nat.min_l by exact H. reflexivity.
Qed.

(** C10.  A string with three pieces between dots parses to four fields
    whatever the pieces are, with [NaN] for a piece that is no number, as
    in ["a.b.c"]; the permissive default is then not taken, as for
    ["v0.13.0"], which is older than ["0.14.0-dev"] by its minor number.
    For every two versions of four fields the result is that of the fields
    in order: the first of major, minor and point of which one side is
    greater decides, and the patches decide when there is none.  A [NaN]
    field is neither greater nor smaller than any value, so with a [NaN] on
    either side of a field the result is that of the other fields alone:
    the comparison passes on to the later fields and in the end to the
    patches. *)
Theorem opaVersionSameOrNewerThan_NaN :
  (forall s : string,
      (3 <= List.length (JS.split_all "." s))%nat ->
      List.length (parseOPAVersion s) = 4%nat)
  /\ parseOPAVersion "a.b.c"
     = [VNumber JS.NaN; VNumber JS.NaN; VNumber JS.NaN; VString ""]
  /\ opaVersionSameOrNewerThan "a.b.c-x" "0.14.0" = false
  /\ opaVersionSameOrNewerThan "v0.13.0" "0.14.0-dev" = false
  /\ opaVersionSameOrNewerThan "0.x.1" "0.14.0" = true
  /\ (forall x : any,
         gt (VNumber JS.NaN) x = false /\ gt x (VNumber JS.NaN) = false)
  /\ (forall (va vb : list any) (n i : nat),
         index va i = VNumber JS.NaN \/ index vb i = VNumber JS.NaN ->
         compare_fields va vb (S n) i = compare_fields va vb n (S i))
  /\ (forall a b : string,
         let va := parseOPAVersion a in
         let vb := parseOPAVersion b in
         List.length va = 4%nat ->
         List.length vb = 4%nat ->
         opaVersionSameOrNewerThan a b
         = if number_gt (major va) (major vb) then true
           else if number_gt (major vb) (major va) then false
           else if number_gt (minor va) (minor vb) then true
           else if number_gt (minor vb) (minor va) then false
           else if number_gt (point va) (point vb) then true
           else if number_gt (point vb) (point va) then false
           else patch_decides (patch va) (patch vb))
  /\ (forall a b : string,
         let va := parseOPAVersion a in
         let vb := parseOPAVersion b in
         List.length va = 4%nat ->
         List.length vb = 4%nat ->
         major va = JS.NaN \/ major vb = JS.NaN ->
         opaVersionSameOrNewerThan a b
         = if number_gt (minor va) (minor vb) then true
           else if number_gt (minor vb) (minor va) then false
           else if number_gt (point va) (point vb) then true
           else if number_gt (point vb) (point va) then false
           else patch_decides (patch va) (patch vb))
  /\ (forall a b : string,
         let va := parseOPAVersion a in
         let vb := parseOPAVersion b in
         List.length va = 4%nat ->
         List.length vb = 4%nat ->
         minor va = JS.NaN \/ minor vb = JS.NaN ->
         opaVersionSameOrNewerThan a b
         = if number_gt (major va) (major vb) then true
           else if number_gt (major vb) (major va) then false
           else if number_gt (point va) (point vb) then true
           else if number_gt (point vb) (point va) then false
           else patch_decides (patch va) (patch vb))
  /\ (forall a b : string,
         let va := parseOPAVersion a in
         let vb := parseOPAVersion b in
         List.length va = 4%nat ->
         List.length vb = 4%nat ->
         point va = JS.NaN \/ point vb = JS.NaN ->
         opaVersionSameOrNewerThan a b
         = if number_gt (major va) (major vb) then true
           else if number_gt (major vb) (major va) then false
           else if number_gt (minor va) (minor vb) then true
           else if number_gt (minor vb) (minor va) then false
           else patch_decides (patch va) (patch vb))
  /\ (forall a b : string,
         let va := parseOPAVersion a in
         let vb := parseOPAVersion b in
         List.length va = 4%nat ->
         List.length vb = 4%nat ->
         major va = JS.NaN \/ major vb = JS.NaN ->
         minor va = JS.NaN \/ minor vb = JS.NaN ->
         point va = JS.NaN \/ point vb = JS.NaN ->
         opaVersionSameOrNewerThan a b = patch_decides (patch va) (patch vb)).
Proof.
  split; [exact parseOPAVersion_three_pieces|].
  split; [vm_compute; reflexivity|].
  split; [vm_compute; reflexivity|].
  split; [vm_compute; reflexivity|].
  split; [vm_compute; reflexivity|].
  split; [exact gt_NaN|].
  split.
  { intros va vb n i [H|H]; cbn [compare_fields]; rewrite H.
    - now rewrite (proj1 (gt_NaN _)), (proj2 (gt_NaN _)).
    - now rewrite (proj1 (gt_NaN _)), (proj2 (gt_NaN _)). }
  assert (Hchain : forall a b : string,
             List.length (parseOPAVersion a) = 4%nat ->
             List.length (parseOPAVersion b) = 4%nat ->
             opaVersionSameOrNewerThan a b
             = if number_gt (major (parseOPAVersion a))
                            (major (parseOPAVersion b)) then true
               else if number_gt (major (parseOPAVersion b))
                                 (major (parseOPAVersion a)) then false
               else if number_gt (minor (parseOPAVersion a))
                                 (minor (parseOPAVersion b)) then true
               else if number_gt (minor (parseOPAVersion b))
                                 (minor (parseOPAVersion a)) then false
               else if number_gt (point (parseOPAVersion a))
                                 (point (parseOPAVersion b)) then true
               else if number_gt (point (parseOPAVersion b))
                                 (point (parseOPAVersion a)) then false
               else patch_decides (patch (parseOPAVersion a))
                                  (patch (parseOPAVersion b))).
  { intros a b Ha Hb. unfold opaVersionSameOrNewerThan.
    parsed a Ha. parsed b Hb. now rewrite sameOrNewer_fields. }
  assert (HNaN : forall x, number_gt JS.NaN x = false
                           /\ number_gt x JS.NaN = false).
  { intros x. rewrite <- !gt_numbers. apply gt_NaN. }
  split; [exact Hchain|].
  split.
  { intros a b va vb Ha Hb. subst va vb. rewrite (Hchain a b Ha Hb).
    intros [E | E]; rewrite E;
      match goal with
      | |- context [number_gt JS.NaN ?x] =>
          destruct (HNaN x) as [H1 H2]; rewrite H1, H2
      end; reflexivity. }
  split.
  { intros a b va vb Ha Hb. subst va vb. rewrite (Hchain a b Ha Hb).
    intros [E | E]; rewrite E;
      match goal with
      | |- context [number_gt JS.NaN ?x] =>
          destruct (HNaN x) as [H1 H2]; rewrite H1, H2
      end; reflexivity. }
  split.
  { intros a b va vb Ha Hb. subst va vb. rewrite (Hchain a b Ha Hb).
    intros [E | E]; rewrite E;
      match goal with
      | |- context [number_gt JS.NaN ?x] =>
          destruct (HNaN x) as [H1 H2]; rewrite H1, H2
      end; reflexivity. }
  intros a b va vb Ha Hb. subst va vb. rewrite (Hchain a b Ha Hb).
  intros [E0 | E0] [E1 | E1] [E2 | E2]; rewrite E0, E1, E2;
    repeat match goal with
      | |- context [number_gt JS.NaN ?x] =>
          destruct (HNaN x) as [H1 H2]; rewrite ?H1, ?H2; clear H1 H2
      end; reflexivity.
Qed.

Lemma opaVersionSameOrNewerThan_NaN_witness :
  List.length (parseOPAVersion "a.b.c") = 4%nat
  /\ opaVersionSameOrNewerThan "a.b.c" "0.14.0-dev" = true
  /\ compare_fields (parseOPAVersion "a.b.c") (parseOPAVersion "1.2.3") 3 0
     = compare_fields (parseOPAVersion "a.b.c") (parseOPAVersion "1.2.3") 2 1
  /\ opaVersionSameOrNewerThan "v0.13.0" "0.14.0-dev" = false
  /\ opaVersionSameOrNewerThan "0.x.1" "0.14.0" = true
  /\ opaVersionSameOrNewerThan "0.14.x-dev" "0.14.0" = false
  /\ opaVersionSameOrNewerThan "0.15.x" "0.14.0-dev" = true.
Proof.
  destruct opaVersionSameOrNewerThan_NaN
    as (Hfour & _ & _ & _ & _ & _ & Hnext & Hchain & Hmajor & Hminor
        & Hpoint & Hpatch).
  split; [|split; [|split; [|split; [|split; [|split]]]]].
  - apply Hfour. vm_compute. apply le_n.
  - rewrite (Hpatch "a.b.c" "0.14.0-dev" eq_refl eq_refl);
      [reflexivity | now left | now left | now left].
  - apply Hnext. now left.
  - rewrite (Hmajor "v0.13.0" "0.14.0-dev" eq_refl eq_refl);
      [reflexivity | now left].
  - rewrite (Hminor "0.x.1" "0.14.0" eq_refl eq_refl);
      [reflexivity | now left].
  - rewrite (Hpoint "0.14.x-dev" "0.14.0" eq_refl eq_refl);
      [reflexivity | now left].
  - rewrite (Hchain "0.15.x" "0.14.0-dev" eq_refl eq_refl). reflexivity.
Defined.

(** ** The reference formatter *)

Section FormatFacts.

Lemma all_chars_In (p : ascii -> bool) (s : string) :
  JS.all_chars p s = true
  <-> forall d, In d (list_ascii_of_string s) -> p d = true.
Proof.
  induction s as [|c s IH]; simpl.
  - split; [intros _ d [] | reflexivity].
  - rewrite andb_true_iff, IH. split.
    + intros [Hc Hs] d [<-|Hd]; auto.
    + intros H. split; [apply H; now left | intros d Hd; apply H; now right].
Qed.

(** The pattern accepts the identifiers and nothing else. *)
Lemma regoVarPattern_test_identifier (v : option JS.json) :
  regoVarPattern_test v = true <-> identifier (ToString v).
Proof.
  unfold regoVarPattern_test. destruct (ToString v) as [|c rest].
  - split; [discriminate | inversion 1].
  - rewrite andb_true_iff, all_chars_In. split.
    + intros [Hc Hrest]. now constructor.
    + inversion 1; subst. now split.
Qed.

Lemma concat_cons (piece : string) (pieces : list string) :
  String.concat "" (piece :: pieces) = piece ++ String.concat "" pieces.
Proof.
  destruct pieces as [|next pieces]; simpl; [now rewrite append_empty_r|].
  reflexivity.
Qed.

Lemma refToString_loop_Format (post : list segment) :
  forall (pre : list segment) (result : option JS.json),
    refToString_loop (pre ++ post) (List.length post) (List.length pre) result
    = Return (Format_from result post).
Proof.
  induction post as [|seg post IH]; intros pre result; [reflexivity|].
  cbn [List.length refToString_loop].
  rewrite nth_error_app2, Nat.sub_diag by lia. cbn [nth_error].
  assert (Hnext : forall r,
             refToString_loop (pre ++ seg :: post) (List.length post)
                              (S (List.length pre)) r
             = Return (Format_from r post)).
  { intros r. specialize (IH (pre ++ [seg])%list r).
    rewrite <- app_assoc, length_app, Nat.add_1_r in IH. exact IH. }
  assert (Hstep : Format_from (append_to result (contribution seg)) post
                  = Format_from result (seg :: post)).
  { unfold Format_from at 2. cbn [map]. rewrite concat_cons.
    destruct post as [|seg' post]; cbn [Format_from map].
    - unfold append_to. now rewrite append_empty_r.
    - unfold append_to. cbn [ToString JS.toString].
      now rewrite append_assoc. }
  rewrite <- Hstep. unfold contribution.
  destruct (type_is_string seg && regoVarPattern_test (value seg));
    apply Hnext.
Qed.

Lemma refToString_Format (root : segment) (rest : list segment) :
  refToString (root :: rest) = Return (Format root rest).
Proof.
  unfold refToString. cbn [nth_error List.length Nat.sub].
  rewrite Nat.sub_0_r.
  exact (refToString_loop_Format rest [root] (value root)).
Qed.

End FormatFacts.

(** C5.  For a ref with a first segment [root] and further segments [rest],
    [refToString] returns the root value as it is, followed, when it is a
    string or there are further segments, by what each further segment adds
    in order: a dot and the value when its type is [string] and the value is
    an identifier, and otherwise the JSON text of the value between square
    brackets.  So [input], [a], [b-c] and the number [0] give
    [input.a["b-c"][0]]. *)
Theorem refToString_format :
  (forall (root : segment) (rest : list segment),
      refToString (root :: rest) = Return (Format root rest))
  /\ (forall (root : segment) (rest : list segment) (r : string),
         value root = Some (JS.JString r) ->
         refToString (root :: rest)
         = Return (Some (JS.JString
                           (r ++ String.concat "" (map contribution rest)))))
  /\ (forall seg : segment,
         type seg = Some (JS.JString "string") ->
         identifier (ToString (value seg)) ->
         contribution seg = "." ++ ToString (value seg))
  /\ (forall seg : segment,
         type seg <> Some (JS.JString "string")
         \/ ~ identifier (ToString (value seg)) ->
         contribution seg = "[" ++ JSON_stringify (value seg) ++ "]")
  /\ refToString [segment_input; segment_a; segment_b_c; segment_0]
     = Return (Some (JS.JString
                       ("input.a[" ++ JS.double_quote ++ "b-c"
                        ++ JS.double_quote ++ "][0]"))).
Proof.
  split; [exact refToString_Format|].
  split.
  { intros root rest r Hr. rewrite refToString_Format. unfold Format.
    rewrite Hr. destruct rest; [|reflexivity].
    simpl. now rewrite append_empty_r. }
  split.
  { intros seg Ht Hid. unfold contribution, type_is_string. rewrite Ht.
    apply regoVarPattern_test_identifier in Hid. now rewrite Hid. }
  split; [|vm_compute; reflexivity].
  intros seg H. unfold contribution.
  destruct (type_is_string seg && regoVarPattern_test (value seg)) eqn:E;
    [|reflexivity].
  apply andb_true_iff in E as [Et Ep]. exfalso. destruct H as [H|H].
  - apply H. unfold type_is_string in Et.
    destruct (type seg) as [[| | |t| |]|]; try discriminate.
    now apply String.eqb_eq in Et as ->.
  - apply H. now apply regoVarPattern_test_identifier.
Qed.

Lemma refToString_format_witness :
  refToString [segment_input; segment_a; segment_b_c]
  = Return (Some (JS.JString ("input" ++ String.concat ""
                                (map contribution [segment_a; segment_b_c]))))
  /\ contribution segment_a = ".a"
  /\ contribution segment_b_c
     = "[" ++ JS.double_quote ++ "b-c" ++ JS.double_quote ++ "]"
  /\ contribution segment_0 = "[0]".
Proof.
  destruct refToString_format as (_ & Hroot & Hdot & Hbracket & _).
  split; [|split; [|split]].
  - apply Hroot. reflexivity.
  - apply (Hdot segment_a); [reflexivity|].
    constructor; [reflexivity | intros d []].
  - apply (Hbracket segment_b_c). right. intros Hid.
    apply regoVarPattern_test_identifier in Hid. discriminate.
  - apply (Hbracket segment_0). left. discriminate.
Defined.

(** C9.  [refToString] is not defined on the empty ref: reading the value
    of the missing first segment throws a [TypeError], and nothing is
    returned; on every other ref it returns. *)
Theorem refToString_empty :
  refToString [] = Throw TypeError
  /\ (forall v, refToString [] <> Return v)
  /\ (forall ref : list segment,
         (exists v, refToString ref = Return v) <-> ref <> []).
Proof.
  split; [reflexivity|]. split; [discriminate|].
  intros [|root rest]; split.
  - intros [v H]. discriminate.
  - congruence.
  - discriminate.
  - intros _. exists (Format root rest). apply refToString_Format.
Qed.

Lemma refToString_empty_witness :
  exists v, refToString [segment_input] = Return v.
Proof.
  apply (proj2 (proj2 refToString_empty)). discriminate.
Defined.

(** ** The process invoker *)

Section ProcessFacts.

Variable configured_path : option string.
Variable commandExistsSync : string -> bool.
Variable existsSync : string -> bool.
Variable child : string -> list string -> string -> option exit_report.

Local Abbreviation runWithStatus' :=
  (runWithStatus configured_path commandExistsSync existsSync child).
Local Abbreviation Locate' :=
  (Locate configured_path commandExistsSync existsSync).

(** Without a usable executable the call prompts and ends there. *)
Lemma runWithStatus_not_found (path : string) (args : list string)
    (stdin : string) (cb : option Z -> string -> string -> M unit) :
  Locate' path = None ->
  runWithStatus' path args stdin cb = ([PromptForInstall], Return tt).
Proof.
  unfold Locate, runWithStatus.
  destruct configured_path as [p|].
  - destruct (existsSync p); [discriminate|].
    destruct (commandExistsSync path); [discriminate|reflexivity].
  - destruct (commandExistsSync path); [discriminate|reflexivity].
Qed.

(** With one it spawns the executable [Locate] names. *)
Lemma runWithStatus_located (path : string) (args : list string)
    (stdin : string) (cb : option Z -> string -> string -> M unit)
    (exe : string) :
  Locate' path = Some exe ->
  runWithStatus' path args stdin cb = invoke child exe args stdin cb.
Proof.
  unfold Locate, runWithStatus, invoke.
  assert (Hrun : forall e,
    (emit (ConsoleLog ["spawn:"; e; "args:"; JS.join args]) ;;
     emit (Spawn e args) ;; emit (StdinWrite stdin) ;; emit StdinEnd ;;
     match child e args stdin with
     | None => ret tt
     | Some report =>
         emit (ConsoleLog ["code:"; code_toString (exit_code report)]) ;;
         emit (ConsoleLog ["stdout:"; exit_stdout report]) ;;
         emit (ConsoleLog ["stderr:"; exit_stderr report]) ;;
         cb (exit_code report) (exit_stderr report) (exit_stdout report)
     end)
    = match child e args stdin with
      | None => (spawn_events e args stdin, Return tt)
      | Some report =>
          let '(t, r) := cb (exit_code report) (exit_stderr report)
                            (exit_stdout report) in
          ((spawn_events e args stdin ++ exit_events report ++ t)%list, r)
      end).
  { intros e. unfold bind, emit, ret.
    destruct (child e args stdin) as [report|]; [|reflexivity].
    now destruct (cb _ _ _) as [t r]. }
  destruct configured_path as [p|].
  - destruct (existsSync p).
    + intros [= <-]. rewrite orb_true_r. apply Hrun.
    + destruct (commandExistsSync path); [|discriminate].
      intros [= <-]. apply Hrun.
  - destruct (commandExistsSync path); [|discriminate].
    intros [= <-]. apply Hrun.
Qed.

(** C8.  The executable is usable when [path] is found on the search path
    or the configured path names an existing file, and a usable configured
    path is the one spawned, whatever the search path has.  When neither
    resolves, the call prompts for installation and returns: whatever the
    callback is, it is not called, nothing is spawned and nothing is
    thrown. *)
Theorem runWithStatus_resolves (path : string) (args : list string)
    (stdin : string) :
  (commandExistsSync path = false ->
   (forall p, configured_path = Some p -> existsSync p = false) ->
   forall cb, runWithStatus' path args stdin cb
              = ([PromptForInstall], Return tt))
  /\ (forall p, configured_path = Some p -> existsSync p = true ->
      forall cb, runWithStatus' path args stdin cb
                 = invoke child p args stdin cb)
  /\ (commandExistsSync path = true ->
      (forall p, configured_path = Some p -> existsSync p = false) ->
      forall cb, runWithStatus' path args stdin cb
                 = invoke child path args stdin cb).
Proof.
  split; [|split].
  - intros Hpath Hconf cb. apply runWithStatus_not_found.
    unfold Locate. rewrite Hpath.
    destruct configured_path as [p|]; [|reflexivity].
    now rewrite (Hconf p eq_refl).
  - intros p Hp He cb. apply runWithStatus_located.
    unfold Locate. now rewrite Hp, He.
  - intros Hpath Hconf cb. apply runWithStatus_located.
    unfold Locate. rewrite Hpath.
    destruct configured_path as [p|]; [|reflexivity].
    now rewrite (Hconf p eq_refl).
Qed.

Variable JSON_parse : string -> option JS.json.

Local Abbreviation run' :=
  (run configured_path commandExistsSync existsSync child JSON_parse).

(** C4.  When the executable resolves and the child exits, [run] goes on
    from what was observed so far as follows.  With exit code zero the
    standard output is decoded as JSON and the callback gets the decoded
    value with an empty error; when decoding fails the [SyntaxError] is
    thrown and the callback is not called.  With any other exit code the
    callback gets as error the standard output when it is not empty, even
    if the standard error is not empty either, and the standard error
    otherwise. *)
Theorem run_classifies (path : string) (args : list string) (stdin : string)
    (cb : string -> JS.json -> M unit) (exe : string) (report : exit_report) :
  Locate' path = Some exe ->
  child exe args stdin = Some report ->
  let observed :=
    ((spawn_events exe args stdin ++ exit_events report)%list, Return tt) in
  let stdout := exit_stdout report in
  let stderr := exit_stderr report in
  (exit_code report = Some 0 ->
   forall v, JSON_parse stdout = Some v ->
             run' path args stdin cb = (observed ;; cb "" v))
  /\ (exit_code report = Some 0 ->
      JSON_parse stdout = None ->
      run' path args stdin cb = (observed ;; throw SyntaxError))
  /\ (exit_code report <> Some 0 ->
      stdout <> "" ->
      run' path args stdin cb = (observed ;; cb stdout (JS.JString "")))
  /\ (exit_code report <> Some 0 ->
      stdout = "" ->
      run' path args stdin cb = (observed ;; cb stderr (JS.JString ""))).
Proof.
  intros Hexe Hchild observed stdout stderr.
  assert (Hrun : run' path args stdin cb
                 = (observed ;;
                    run_callback JSON_parse cb (exit_code report) stderr stdout)).
  { unfold run.
    rewrite (runWithStatus_located _ _ _ _ _ Hexe). unfold invoke.
    rewrite Hchild. subst observed stdout stderr. unfold bind.
    destruct (run_callback _ _ _ _ _) as [t r].
    now rewrite <- app_assoc. }
  rewrite Hrun. unfold run_callback.
  split; [|split; [|split]].
  - intros -> v ->. reflexivity.
  - intros -> ->. reflexivity.
  - intros Hcode Hout.
    assert ((stdout =? "")%string = false) as ->
        by now apply String.eqb_neq.
    destruct (exit_code report) as [[| |]|]; try reflexivity. congruence.
  - intros Hcode ->.
    destruct (exit_code report) as [[| |]|]; try reflexivity. congruence.
Qed.

End ProcessFacts.

Lemma runWithStatus_resolves_witness :
  (forall cb,
      runWithStatus None no_file no_file sample_child "opa" ["eval"] "" cb
      = ([PromptForInstall], Return tt))
  /\ (forall cb,
         runWithStatus (Some "/opt/opa") sample_commandExistsSync
                       sample_existsSync sample_child "opa" ["eval"] "" cb
         = invoke sample_child "/opt/opa" ["eval"] "" cb)
  /\ (forall cb,
         runWithStatus (Some "/opt/opa") sample_commandExistsSync no_file
                       sample_child "opa" ["eval"] "" cb
         = invoke sample_child "opa" ["eval"] "" cb).
Proof.
  split; [|split].
  - apply (runWithStatus_resolves None no_file no_file sample_child
             "opa" ["eval"] "").
    + reflexivity.
    + discriminate.
  - apply (proj1 (proj2 (runWithStatus_resolves
             (Some "/opt/opa") sample_commandExistsSync sample_existsSync
             sample_child "opa" ["eval"] "")) "/opt/opa"); reflexivity.
  - apply (proj2 (proj2 (runWithStatus_resolves
             (Some "/opt/opa") sample_commandExistsSync no_file
             sample_child "opa" ["eval"] ""))).
    + reflexivity.
    + reflexivity.
Defined.

Lemma run_classifies_witness :
  sample_run ["eval"]
  = ((spawn_events "opa" ["eval"] ""
      ++ exit_events {| exit_code := Some 0; exit_stderr := "";
                        exit_stdout := "true" |}
      ++ [ConsoleLog ["callback:"; ""; "true"]])%list, Return tt)
  /\ sample_run ["garbled"]
     = ((spawn_events "opa" ["garbled"] ""
         ++ exit_events {| exit_code := Some 0; exit_stderr := "";
                           exit_stdout := "{" |})%list, Throw SyntaxError)
  /\ sample_run ["check"]
     = ((spawn_events "opa" ["check"] ""
         ++ exit_events {| exit_code := Some 1; exit_stderr := "warning";
                           exit_stdout := "structured error" |}
         ++ [ConsoleLog ["callback:"; "structured error";
                         JS.stringify (JS.JString "")]])%list, Return tt)
  /\ sample_run ["boom"]
     = ((spawn_events "opa" ["boom"] ""
         ++ exit_events {| exit_code := Some 1; exit_stderr := "boom";
                           exit_stdout := "" |}
         ++ [ConsoleLog ["callback:"; "boom";
                         JS.stringify (JS.JString "")]])%list, Return tt).
Proof.
  unfold sample_run. split; [|split; [|split]].
  - rewrite (proj1 (run_classifies None sample_commandExistsSync no_file
                      sample_child decode_literal "opa" ["eval"] ""
                      record_callback "opa" _ eq_refl eq_refl)
               eq_refl (JS.JBoolean true) eq_refl).
    reflexivity.
  - rewrite (proj1 (proj2 (run_classifies None sample_commandExistsSync no_file
                      sample_child decode_literal "opa" ["garbled"] ""
                      record_callback "opa" _ eq_refl eq_refl))
               eq_refl eq_refl).
    reflexivity.
  - rewrite (proj1 (proj2 (proj2 (run_classifies None sample_commandExistsSync
                      no_file sample_child decode_literal "opa" ["check"] ""
                      record_callback "opa" _ eq_refl eq_refl)))).
    + reflexivity.
    + discriminate.
    + discriminate.
  - rewrite (proj2 (proj2 (proj2 (run_classifies None sample_commandExistsSync
                      no_file sample_child decode_literal "opa" ["boom"] ""
                      record_callback "opa" _ eq_refl eq_refl)))).
    + reflexivity.
    + discriminate.
    + reflexivity.
Defined.

(** ** The order of versions *)

Section OrderFacts.

Lemma number_gt_finite (p q : Q) :
  number_gt (JS.Finite p) (JS.Finite q) = true <-> (q < p)%Q.
Proof.
  unfold number_gt, JS.number_lt. rewrite negb_true_iff.
  split.
  - intros H. apply Qnot_le_lt. intros Hle.
    apply Qle_bool_iff in Hle. congruence.
  - intros Hlt. destruct (Qle_bool p q) eqn:E; [|reflexivity].
    apply Qle_bool_iff in E. exfalso. exact (Qlt_not_le _ _ Hlt E).
Qed.

Lemma number_gt_trans (x y z : JS.number) :
  number_gt x y = true -> number_gt y z = true -> number_gt x z = true.
Proof.
  destruct x as [|[|]|p], y as [|[|]|q], z as [|[|]|r];
    try discriminate; try reflexivity.
  rewrite !number_gt_finite. intros H1 H2. exact (Qlt_trans _ _ _ H2 H1).
Qed.

(** A number between two others is below the greater or above the
    smaller. *)
Lemma number_gt_between (x y z : JS.number) :
  y <> JS.NaN ->
  number_gt x z = true -> number_gt x y = true \/ number_gt y z = true.
Proof.
  destruct x as [|[|]|p], y as [|[|]|q], z as [|[|]|r];
    try discriminate; try congruence; auto.
  rewrite !number_gt_finite. intros _ H.
  destruct (Qlt_le_dec q p) as [Hlt|Hle]; [now left|right].
  exact (Qlt_le_trans _ _ _ H Hle).
Qed.

(** Two numbers of which neither is greater are equal. *)
Lemma number_not_gt_eq (x y : JS.number) :
  x <> JS.NaN -> y <> JS.NaN ->
  number_gt x y = false -> number_gt y x = false -> JS.number_eq x y = true.
Proof.
  destruct x as [|[|]|p], y as [|[|]|q];
    try discriminate; try congruence; try reflexivity.
  intros _ _ H1 H2. apply Qeq_bool_iff, Qle_antisym.
  - apply Qnot_lt_le. intros Hlt. apply number_gt_finite in Hlt. congruence.
  - apply Qnot_lt_le. intros Hlt. apply number_gt_finite in Hlt. congruence.
Qed.

Lemma ascii_compare_N (a b : ascii) :
  Ascii.compare a b = N.compare (N_of_ascii a) (N_of_ascii b).
Proof. reflexivity. Qed.

Lemma string_compare_trans (c : comparison) (s : string) :
  forall t u, (s ?= t)%string = c -> (t ?= u)%string = c -> (s ?= u)%string = c.
Proof.
  induction s as [|x s IH]; intros [|y t] [|z u]; simpl; try congruence.
  rewrite !ascii_compare_N.
  destruct (N.compare_spec (N_of_ascii x) (N_of_ascii y)) as [Exy|Lxy|Gxy];
    destruct (N.compare_spec (N_of_ascii y) (N_of_ascii z)) as [Eyz|Lyz|Gyz];
    destruct (N.compare_spec (N_of_ascii x) (N_of_ascii z)) as [Exz|Lxz|Gxz];
    try lia; try congruence; intros; subst; try congruence; try (now apply (IH t u)).
Qed.

Lemma string_leb_trans (s t u : string) :
  (s <=? t)%string = true -> (t <=? u)%string = true -> (s <=? u)%string = true.
Proof.
  unfold String.leb. intros Hst Htu.
  destruct (s ?= t)%string eqn:Est; [| |discriminate].
  - apply String.compare_eq_iff in Est. now subst.
  - destruct (t ?= u)%string eqn:Etu; [| |discriminate].
    + apply String.compare_eq_iff in Etu. subst. now rewrite Est.
    + now rewrite (string_compare_trans Lt s t u Est Etu).
Qed.

(** The patch rule is a total order with the empty patch on top. *)
Lemma patch_decides_total (pa pb : string) :
  patch_decides pa pb = true \/ patch_decides pb pa = true.
Proof.
  unfold patch_decides.
  destruct (String.eqb_spec pa ""), (String.eqb_spec pb ""); cbn [andb negb];
    auto; apply String.leb_total.
Qed.

Lemma patch_decides_trans (pa pb pc : string) :
  patch_decides pa pb = true -> patch_decides pb pc = true ->
  patch_decides pa pc = true.
Proof.
  unfold patch_decides.
  destruct (String.eqb_spec pa ""), (String.eqb_spec pb ""),
    (String.eqb_spec pc ""); cbn [andb negb]; subst; try congruence; auto.
  intros H1 H2. exact (string_leb_trans _ _ _ H2 H1).
Qed.

Lemma patch_decides_antisym (pa pb : string) :
  patch_decides pa pb = true -> patch_decides pb pa = true -> pa = pb.
Proof.
  unfold patch_decides.
  destruct (String.eqb_spec pa ""), (String.eqb_spec pb ""); cbn [andb negb];
    subst; try congruence.
  intros H1 H2. now apply String.leb_antisym.
Qed.

End OrderFacts.

(** One round of the loop, seen from three versions: when the rest of the
    comparison is transitive, so is the comparison from this field on. *)
Lemma compare_round_trans (x y z : JS.number) (rxy ryz rxz : bool) :
  x <> JS.NaN -> y <> JS.NaN -> z <> JS.NaN ->
  (rxy = true -> ryz = true -> rxz = true) ->
  (if number_gt x y then true else if number_gt y x then false else rxy) = true ->
  (if number_gt y z then true else if number_gt z y then false else ryz) = true ->
  (if number_gt x z then true else if number_gt z x then false else rxz) = true.
Proof.
  intros Hx Hy Hz Hrest.
  pose proof (number_gt_trans x y z) as T.
  pose proof (number_gt_between x z y Hz) as B1.
  pose proof (number_gt_between y x z Hx) as B2.
  pose proof (number_gt_between z y x Hy) as B3.
  pose proof (number_gt_asym x z) as A.
  destruct (number_gt x y), (number_gt y x), (number_gt y z),
    (number_gt z y), (number_gt x z), (number_gt z x);
    intuition congruence.
Qed.

(** X1.  Of two version strings, whatever they are, one at least is the
    same or newer than the other. *)
Theorem opaVersionSameOrNewerThan_total (a b : string) :
  opaVersionSameOrNewerThan a b = true \/ opaVersionSameOrNewerThan b a = true.
Proof.
  unfold opaVersionSameOrNewerThan.
  destruct (parseOPAVersion_shape a) as [->|(a0 & a1 & a2 & pa & ->)];
    [now left|].
  destruct (parseOPAVersion_shape b) as [->|(b0 & b1 & b2 & pb & ->)];
    [now left|].
  rewrite !sameOrNewer_fields.
  destruct (number_gt a0 b0); [now left|].
  destruct (number_gt b0 a0); [now right|].
  destruct (number_gt a1 b1); [now left|].
  destruct (number_gt b1 a1); [now right|].
  destruct (number_gt a2 b2); [now left|].
  destruct (number_gt b2 a2); [now right|].
  apply patch_decides_total.
Qed.

(** X2.  On versions that parse to four fields with numbers in the first
    three, same-or-newer is transitive. *)
Theorem opaVersionSameOrNewerThan_trans (a b c : string) :
  List.length (parseOPAVersion a) = 4%nat -> numeric (parseOPAVersion a) ->
  List.length (parseOPAVersion b) = 4%nat -> numeric (parseOPAVersion b) ->
  List.length (parseOPAVersion c) = 4%nat -> numeric (parseOPAVersion c) ->
  opaVersionSameOrNewerThan a b = true ->
  opaVersionSameOrNewerThan b c = true ->
  opaVersionSameOrNewerThan a c = true.
Proof.
  unfold opaVersionSameOrNewerThan, numeric. intros Ha Na Hb Nb Hc Nc.
  parsed a Ha. parsed b Hb. parsed c Hc.
  rewrite !sameOrNewer_fields.
  cbn [major minor point index nth ToNumber] in Na, Nb, Nc.
  destruct Na as (Na0 & Na1 & Na2), Nb as (Nb0 & Nb1 & Nb2),
    Nc as (Nc0 & Nc1 & Nc2).
  apply compare_round_trans; try assumption.
  apply compare_round_trans; try assumption.
  apply compare_round_trans; try assumption.
  apply patch_decides_trans.
Qed.

Lemma opaVersionSameOrNewerThan_trans_witness :
  opaVersionSameOrNewerThan "1.2.0" "0.14.0-dev" = true.
Proof.
  apply (opaVersionSameOrNewerThan_trans "1.2.0" "0.14.0" "0.14.0-dev");
    try reflexivity;
    try (repeat split; vm_compute; discriminate).
Defined.

(** X3.  Two versions that parse to four fields with numbers in the first
    three and are each the same or newer than the other have equal major,
    minor and point numbers and the same patch. *)
Theorem opaVersionSameOrNewerThan_antisym (a b : string) :
  let va := parseOPAVersion a in
  let vb := parseOPAVersion b in
  List.length va = 4%nat -> numeric va ->
  List.length vb = 4%nat -> numeric vb ->
  opaVersionSameOrNewerThan a b = true ->
  opaVersionSameOrNewerThan b a = true ->
  JS.number_eq (major va) (major vb) = true
  /\ JS.number_eq (minor va) (minor vb) = true
  /\ JS.number_eq (point va) (point vb) = true
  /\ patch va = patch vb.
Proof.
  intros va vb Ha Na Hb Nb. subst va vb. revert Na Nb.
  unfold opaVersionSameOrNewerThan, numeric.
  parsed a Ha. parsed b Hb.
  rewrite !sameOrNewer_fields.
  cbn [major minor point patch index nth ToNumber].
  intros (Na0 & Na1 & Na2) (Nb0 & Nb1 & Nb2).
  pose proof (number_not_gt_eq n0 n3 Na0 Nb0) as Q0.
  pose proof (number_not_gt_eq n1 n4 Na1 Nb1) as Q1.
  pose proof (number_not_gt_eq n2 n5 Na2 Nb2) as Q2.
  pose proof (patch_decides_antisym p p0) as QP.
  pose proof (number_gt_asym n0 n3) as A0.
  pose proof (number_gt_asym n1 n4) as A1.
  pose proof (number_gt_asym n2 n5) as A2.
  destruct (number_gt n0 n3), (number_gt n3 n0);
    try (intros; discriminate); try (now discriminate A0).
  destruct (number_gt n1 n4), (number_gt n4 n1);
    try (intros; discriminate); try (now discriminate A1).
  destruct (number_gt n2 n5), (number_gt n5 n2);
    try (intros; discriminate); try (now discriminate A2).
  intros H1 H2. repeat split; auto.
Qed.

Lemma opaVersionSameOrNewerThan_antisym_witness :
  patch (parseOPAVersion "0.14.0-dev") = patch (parseOPAVersion "00.14.0-dev").
Proof.
  apply (opaVersionSameOrNewerThan_antisym "0.14.0-dev" "00.14.0-dev");
    try reflexivity;
    try (repeat split; vm_compute; discriminate).
Defined.

(** ** Numbers and their digits *)

Section DigitFacts.

Lemma read_digits_uint (d : Decimal.uint) :
  forall acc count,
    JS.read_digits 10 acc count (NilEmpty.string_of_uint d)
    = (uint_acc d acc, (Decimal.nb_digits d + count)%nat, EmptyString).
Proof.
  induction d; intros acc count; cbn [NilEmpty.string_of_uint uint_acc
    Decimal.nb_digits JS.read_digits]; try reflexivity;
    match goal with
    | |- context [JS.digit_value 10 ?c] =>
        let v := eval vm_compute in (JS.digit_value 10 c) in
        change (JS.digit_value 10 c) with v
    end; cbv beta iota; rewrite IHd, Nat.add_succ_r; reflexivity.
Qed.

Lemma uint_acc_pos (d : Decimal.uint) :
  forall acc, Z.pos (Pos.of_uint_acc d acc) = uint_acc d (Z.pos acc).
Proof.
  induction d; intros acc; cbn [Pos.of_uint_acc uint_acc];
    try reflexivity; rewrite IHd; f_equal; lia.
Qed.

Lemma uint_acc_of_uint (d : Decimal.uint) :
  Z.of_N (Pos.of_uint d) = uint_acc d 0.
Proof.
  induction d; cbn [Pos.of_uint uint_acc Z.of_N]; try reflexivity;
    try exact IHd; apply uint_acc_pos.
Qed.

End DigitFacts.

Section NumberFacts.

(** A reduced fraction equal to an integer is that integer. *)
Lemma Qred_integer (q : Q) (n : Z) : q == inject_Z n -> Qred q = inject_Z n.
Proof.
  intros H. rewrite (Qred_complete _ _ H). unfold Qred, inject_Z.
  cbn [Qnum Qden].
  pose proof (Z.ggcd_gcd n 1) as Hg.
  pose proof (Z.ggcd_correct_divisors n 1) as Hd.
  destruct (Z.ggcd n 1) as [g [aa bb]]. cbn [fst snd] in *.
  rewrite Z.gcd_1_r in Hg. subst g. destruct Hd as [Ha Hb].
  rewrite Z.mul_1_l in Ha, Hb. now subst.
Qed.

(** Rounding leaves the integers below [2 ^ 53] as they are. *)
Lemma round_binary64_exact (n : Z) :
  0 < n < 2 ^ 53 -> JS.round_binary64 n 1 = JS.Finite (inject_Z n).
Proof.
  intros Hn. unfold JS.round_binary64, JS.pow2.
  change (Z.log2 1) with 0. rewrite Z.sub_0_r.
  pose proof (Z.log2_nonneg n) as H0.
  assert (H53 : Z.log2 n < 53) by (apply Z.log2_lt_pow2; lia).
  destruct (Z.log2_spec n) as [Hlo Hhi]; [lia|].
  set (e := Z.log2 n) in *.
  assert ((0 <=? e) = true) as -> by (apply Z.leb_le; lia).
  assert ((n <? 1 * 2 ^ e) = false) as -> by (apply Z.ltb_ge; lia).
  rewrite Z.max_l by lia.
  destruct (Z.leb_spec 0 (e - 52)) as [Hk|Hk].
  - assert (e - 52 = 0) as -> by lia.
    change (1 * 2 ^ 0) with 1. rewrite Z.div_1_r, Z.mod_1_r.
    cbn [Z.mul Z.ltb Z.compare andb].
    assert ((2 ^ 1024 <=? n * 2 ^ 0) = false) as ->.
    { apply Z.leb_gt. change (2 ^ 0) with 1. rewrite Z.mul_1_r.
      apply Z.lt_trans with (2 ^ 53); [lia|].
      apply Z.pow_lt_mono_r; lia. }
    f_equal. apply Qred_integer. unfold Qeq, inject_Z. cbn [Qnum Qden].
    change (2 ^ 0) with 1. lia.
  - rewrite Z.div_1_r, Z.mod_1_r. cbn [Z.mul Z.ltb Z.compare andb].
    f_equal. apply Qred_integer. unfold Qeq, inject_Z. cbn [Qnum Qden].
    assert (0 < 2 ^ (- (e - 52))) by (apply Z.pow_pos_nonneg; lia).
    rewrite Z2Pos.id by assumption. lia.
Qed.

Lemma of_decimal_exact (n : Z) :
  safe n -> JS.of_decimal false n 0 = JS.Finite (inject_Z n).
Proof.
  intros [Hlo Hhi]. unfold JS.of_decimal.
  destruct (Z.eqb_spec n 0) as [->|Hn]; [reflexivity|].
  cbn [Z.leb Z.compare]. change (10 ^ 0) with 1. rewrite Z.mul_1_r.
  rewrite round_binary64_exact by lia. reflexivity.
Qed.

Lemma trimEnd_digits (d : Decimal.uint) :
  JS.trimEnd (NilEmpty.string_of_uint d) = NilEmpty.string_of_uint d.
Proof.
  induction d; cbn [NilEmpty.string_of_uint JS.trimEnd]; try reflexivity;
    rewrite IHd; now destruct (NilEmpty.string_of_uint d).
Qed.

(** [Number] reads a numeral as the value of its digits. *)
Lemma Number_digits (d : Decimal.uint) :
  d <> Decimal.Nil ->
  JS.Number (NilEmpty.string_of_uint d) = JS.of_decimal false (uint_acc d 0) 0.
Proof.
  intros Hd.
  assert (Hread : JS.read_decimal false (NilEmpty.string_of_uint d)
                  = JS.of_decimal false (uint_acc d 0) 0).
  { unfold JS.read_decimal.
    assert ((NilEmpty.string_of_uint d =? "Infinity")%string = false) as ->
        by (destruct d; [congruence|reflexivity..]).
    unfold JS.read_unsigned_decimal. rewrite read_digits_uint.
    destruct d; [congruence|reflexivity..]. }
  unfold JS.Number, JS.trim.
  assert (JS.trimStart (NilEmpty.string_of_uint d) = NilEmpty.string_of_uint d)
    as -> by (destruct d; reflexivity).
  rewrite trimEnd_digits, <- Hread.
  destruct d as [|d|d|d|d|d|d|d|d|d|d]; try congruence; try reflexivity.
  destruct d; reflexivity.
Qed.

(** What [Number] makes of the digits of a safe integer. *)
Lemma Number_number_toString (z : Z) :
  safe z -> JS.Number (JS.number_toString z) = JS.Finite (inject_Z z).
Proof.
  intros Hz. destruct z as [|p|p]; [reflexivity| |destruct Hz; lia].
  unfold JS.number_toString. cbn [Z.to_int NilZero.string_of_int].
  pose proof (DecimalPos.Unsigned.to_uint_nonnil p) as Hnil.
  assert (NilZero.string_of_uint (Pos.to_uint p)
          = NilEmpty.string_of_uint (Pos.to_uint p)) as ->
      by (unfold NilZero.string_of_uint; now destruct (Pos.to_uint p)).
  rewrite Number_digits by assumption.
  rewrite <- uint_acc_of_uint, DecimalPos.Unsigned.of_to.
  now apply of_decimal_exact.
Qed.

End NumberFacts.

(** ** Writing a version and reading it back *)

Section RoundTripFacts.

Lemma all_chars_append (p : ascii -> bool) (s t : string) :
  JS.all_chars p (s ++ t) = JS.all_chars p s && JS.all_chars p t.
Proof.
  induction s as [|c s IH]; simpl; [reflexivity|].
  now rewrite IH, andb_assoc.
Qed.

Lemma all_chars_impl (p q : ascii -> bool) (s : string) :
  (forall c, p c = true -> q c = true) ->
  JS.all_chars p s = true -> JS.all_chars q s = true.
Proof.
  intros Hpq. induction s as [|c s IH]; simpl; [reflexivity|].
  rewrite !andb_true_iff. intros [Hc Hs]. auto.
Qed.

(** A string without the character [c] is not cut at a separator that
    starts with [c]. *)
Lemma cut_first_char_absent (c : ascii) (sep' : string) (s : string) :
  JS.all_chars (fun d => negb (d =? c)%char) s = true ->
  cut (String c sep') s = None.
Proof.
  induction s as [|x s IH]; cbn [cut prefix JS.all_chars]; [reflexivity|].
  rewrite andb_true_iff, negb_true_iff. intros [Hx Hs].
  apply Ascii.eqb_neq in Hx.
  destruct (ascii_dec c x) as [->|_]; [congruence|].
  now rewrite IH.
Qed.

(** A string without [c] followed by [c] is cut where it ends. *)
Lemma cut_char_first (c : ascii) (s rest : string) :
  JS.all_chars (fun d => negb (d =? c)%char) s = true ->
  cut (String c "") (s ++ String c rest) = Some (s, rest).
Proof.
  induction s as [|x s IH]; cbn [cut prefix JS.all_chars append].
  - intros _. destruct (ascii_dec c c) as [_|N]; [|congruence].
    now destruct rest.
  - rewrite andb_true_iff, negb_true_iff. intros [Hx Hs].
    apply Ascii.eqb_neq in Hx.
    destruct (ascii_dec c x) as [->|_]; [congruence|].
    now rewrite IH.
Qed.

(** A string without the first character of the separator, followed by the
    separator, is cut where it ends. *)
Lemma cut_separator_first (c : ascii) (sep' s rest : string) :
  JS.all_chars (fun d => negb (d =? c)%char) s = true ->
  cut (String c sep') (s ++ String c sep' ++ rest) = Some (s, rest).
Proof.
  induction s as [|x s IH].
  - intros _. cbn [append]. change (String c (sep' ++ rest))
      with (String c sep' ++ rest).
    assert (Hp : prefix (String c sep') (String c sep' ++ rest) = true)
      by (apply prefix_append; eauto).
    destruct (String c sep' ++ rest) eqn:E; [discriminate|].
    cbn [cut]. rewrite Hp, <- E, drop_append. reflexivity.
  - cbn [JS.all_chars]. rewrite andb_true_iff, negb_true_iff.
    intros [Hx Hs]. apply Ascii.eqb_neq in Hx.
    change ((String x s) ++ String c sep' ++ rest)
      with (String x (s ++ String c sep' ++ rest)).
    cbn [cut prefix].
    destruct (ascii_dec c x) as [->|_]; [congruence|].
    now rewrite IH.
Qed.

Lemma digits_string_of_uint (d : Decimal.uint) :
  JS.all_chars JS.isDigit (NilEmpty.string_of_uint d) = true.
Proof. induction d; simpl; [reflexivity | exact IHd ..]. Qed.

(** The digits of an integer that is not negative. *)
Lemma digits_number_toString (z : Z) :
  0 <= z -> JS.all_chars JS.isDigit (JS.number_toString z) = true.
Proof.
  intros Hz. destruct z as [|p|p]; [reflexivity| |lia].
  unfold JS.number_toString. cbn [Z.to_int NilZero.string_of_int].
  unfold NilZero.string_of_uint.
  pose proof (digits_string_of_uint (Pos.to_uint p)) as H.
  now destruct (Pos.to_uint p).
Qed.

Lemma digit_not_char (c : ascii) (d : ascii) :
  JS.isDigit c = false -> JS.isDigit d = true -> negb (d =? c)%char = true.
Proof.
  intros Hc Hd. apply negb_true_iff, Ascii.eqb_neq. congruence.
Qed.

Lemma number_toString_without (c : ascii) (z : Z) :
  JS.isDigit c = false -> 0 <= z ->
  JS.all_chars (fun d => negb (d =? c)%char) (JS.number_toString z) = true.
Proof.
  intros Hc Hz. apply (all_chars_impl JS.isDigit).
  - intros d. now apply digit_not_char.
  - now apply digits_number_toString.
Qed.

(** Reading back a version that was written out. *)
Lemma parseOPAVersion_version_string (a b c : Z) (p : option string) :
  safe a -> safe b -> safe c ->
  (forall patch, p = Some patch -> JS.all_chars patch_char patch = true) ->
  parseOPAVersion (version_string a b c p)
  = [VNumber (JS.Finite (inject_Z a)); VNumber (JS.Finite (inject_Z b));
     VNumber (JS.Finite (inject_Z c));
     VString (match p with Some patch => patch | None => "" end)].
Proof.
  intros Ha Hb Hc Hp. rewrite parseOPAVersion_by_cut.
  unfold Parse_by, version_string. cbn [append].
  rewrite (cut_char_first "." (JS.number_toString a))
    by (apply number_toString_without; [reflexivity | apply Ha]).
  rewrite (cut_char_first "." (JS.number_toString b))
    by (apply number_toString_without; [reflexivity | apply Hb]).
  assert (Hdot : before "."
                   (JS.number_toString c
                    ++ match p with Some patch => String "-" patch | None => "" end)
                 = JS.number_toString c
                   ++ match p with Some patch => String "-" patch | None => "" end).
  { unfold before. rewrite (cut_first_char_absent _ ""); [reflexivity|].
    rewrite all_chars_append, andb_true_iff. split.
    - apply number_toString_without; [reflexivity | apply Hc].
    - destruct p as [patch|]; [|reflexivity]. cbn [JS.all_chars].
      apply (all_chars_impl patch_char); [|now apply Hp].
      intros d. unfold patch_char. now rewrite andb_true_iff. }
  rewrite Hdot. destruct p as [patch|].
  - unfold before at 1.
    rewrite (cut_char_first "-" (JS.number_toString c))
      by (apply number_toString_without; [reflexivity | apply Hc]).
    assert (Hpatch : before "-" patch = patch).
    { unfold before. rewrite (cut_first_char_absent _ ""); [reflexivity|].
      apply (all_chars_impl patch_char); [|now apply Hp].
      intros d. unfold patch_char. now rewrite andb_true_iff. }
    rewrite Hpatch, !Number_number_toString by assumption. reflexivity.
  - rewrite append_empty_r. unfold before.
    rewrite (cut_first_char_absent "-" "")
      by (apply number_toString_without; [reflexivity | apply Hc]).
    rewrite !Number_number_toString by assumption. reflexivity.
Qed.

End RoundTripFacts.

Lemma number_gt_inject_Z (x y : Z) :
  number_gt (JS.Finite (inject_Z x)) (JS.Finite (inject_Z y)) = (y <? x).
Proof.
  unfold number_gt, JS.number_lt, Qle_bool, inject_Z. cbn [Qnum Qden].
  rewrite !Z.mul_1_r, Z.ltb_antisym. reflexivity.
Qed.

(** Same-or-newer on versions written out is the order of their fields. *)
Lemma version_strings_by_fields
    (a0 a1 a2 : Z) (pa : option string) (b0 b1 b2 : Z) (pb : option string) :
  safe a0 -> safe a1 -> safe a2 -> patch_ok pa ->
  safe b0 -> safe b1 -> safe b2 -> patch_ok pb ->
  opaVersionSameOrNewerThan (version_string a0 a1 a2 pa)
                            (version_string b0 b1 b2 pb)
  = newer_by_fields a0 a1 a2 (patch_of pa) b0 b1 b2 (patch_of pb).
Proof.
  intros. unfold opaVersionSameOrNewerThan.
  rewrite !parseOPAVersion_version_string by assumption.
  rewrite sameOrNewer_fields, !number_gt_inject_Z. reflexivity.
Qed.

(** X4.  A version written as three integers below [2 ^ 53] between dots,
    with or without a dash and a patch that has no dot and no dash, parses
    back to these integers and that patch (the empty patch without one). *)
Theorem parseOPAVersion_round_trip (a b c : Z) (p : option string) :
  safe a -> safe b -> safe c -> patch_ok p ->
  parseOPAVersion (version_string a b c p)
  = [VNumber (JS.Finite (inject_Z a)); VNumber (JS.Finite (inject_Z b));
     VNumber (JS.Finite (inject_Z c)); VString (patch_of p)].
Proof. exact (parseOPAVersion_version_string a b c p). Qed.

Lemma parseOPAVersion_round_trip_witness :
  parseOPAVersion (version_string 0 14 0 (Some "dev"))
  = [VNumber (JS.Finite (inject_Z 0)); VNumber (JS.Finite (inject_Z 14));
     VNumber (JS.Finite (inject_Z 0)); VString "dev"].
Proof.
  apply (parseOPAVersion_round_trip 0 14 0 (Some "dev")).
  - split; [discriminate | reflexivity].
  - split; [discriminate | reflexivity].
  - split; [discriminate | reflexivity].
  - intros patch [= <-]. reflexivity.
Defined.

(** X5.  On two versions written out in that way, same-or-newer is the
    order of the integers, major first, then minor, then point, and on equal
    integers the patch rule. *)
Theorem opaVersionSameOrNewerThan_by_fields
    (a0 a1 a2 : Z) (pa : option string) (b0 b1 b2 : Z) (pb : option string) :
  safe a0 -> safe a1 -> safe a2 -> patch_ok pa ->
  safe b0 -> safe b1 -> safe b2 -> patch_ok pb ->
  opaVersionSameOrNewerThan (version_string a0 a1 a2 pa)
                            (version_string b0 b1 b2 pb)
  = newer_by_fields a0 a1 a2 (patch_of pa) b0 b1 b2 (patch_of pb).
Proof. exact (version_strings_by_fields a0 a1 a2 pa b0 b1 b2 pb). Qed.

Lemma opaVersionSameOrNewerThan_by_fields_witness :
  opaVersionSameOrNewerThan (version_string 0 9 10 None)
                            (version_string 0 14 0 (Some "dev"))
  = false.
Proof.
  rewrite (opaVersionSameOrNewerThan_by_fields 0 9 10 None 0 14 0 (Some "dev"));
    try (split; [discriminate | reflexivity]).
  - reflexivity.
  - intros patch [=].
  - intros patch [= <-]. reflexivity.
Defined.

(** ** The installed version and the flags *)

Section ReportFacts.

Lemma version_char_not (c d : ascii) :
  version_char c = false -> version_char d = true ->
  negb (d =? c)%char = true.
Proof.
  intros Hc Hd. apply negb_true_iff, Ascii.eqb_neq. congruence.
Qed.

Lemma version_chars_without (c : ascii) (v : string) :
  version_char c = false ->
  JS.all_chars version_char v = true ->
  JS.all_chars (fun d => negb (d =? c)%char) v = true.
Proof.
  intros Hc. apply all_chars_impl. intros d. now apply version_char_not.
Qed.

Lemma version_char_not_space (c : ascii) :
  version_char c = true -> JS.isWhiteSpace c = false.
Proof.
  destruct c as [[|] [|] [|] [|] [|] [|] [|] [|]]; vm_compute; congruence.
Qed.

(** A string of version characters has no white space to trim at its end. *)
Lemma trimEnd_version_chars (v : string) :
  JS.all_chars version_char v = true -> JS.trimEnd v = v.
Proof.
  induction v as [|c v IH]; cbn [JS.all_chars JS.trimEnd]; [reflexivity|].
  rewrite andb_true_iff. intros [Hc Hv]. rewrite (IH Hv).
  rewrite (version_char_not_space c Hc). now destruct v.
Qed.

(** What does not end in white space is kept, and so is all before it. *)
Lemma trimEnd_append (s v : string) :
  v <> "" -> JS.trimEnd v = v -> JS.trimEnd (s ++ v) = s ++ v.
Proof.
  intros Hne Hv. induction s as [|c s IH]; cbn [append JS.trimEnd];
    [exact Hv|].
  rewrite IH. destruct (s ++ v) eqn:E; [|reflexivity].
  destruct s; [now subst | discriminate].
Qed.

(** The first line of a version report decides, whatever follows. *)
Lemma getOPAVersionString_report_line
    (spawnSync : string -> list string -> SpawnSyncReturns) (v rest : string) :
  spawnSync "opa" ["version"] = version_report v rest ->
  v <> "" ->
  JS.all_chars version_char v = true ->
  getOPAVersionString spawnSync = v.
Proof.
  intros Hspawn Hne Hv. unfold getOPAVersionString.
  rewrite Hspawn. cbn [status stdout version_report].
  match goal with
  | |- scan_lines ?lines _ _ = _ =>
      change (scan_lines lines (List.length lines) 0)
        with (scan_lines ([] ++ lines) (List.length lines)
                         (@List.length string []));
      rewrite (scan_lines_first_version lines [])
  end.
  unfold line_feed. rewrite split_all_cut.
  assert (Hcut : cut (String "010" "")
                     ("Version: " ++ v ++ String "010" "" ++ rest)
                 = Some ("Version: " ++ v, rest)).
  { replace ("Version: " ++ v ++ String "010" "" ++ rest)
      with (("Version: " ++ v) ++ String "010" rest)
      by (now rewrite append_assoc).
    apply cut_char_first. rewrite all_chars_append.
    now rewrite (version_chars_without "010" v eq_refl Hv). }
  rewrite Hcut. cbn [first_version]. unfold version_of_line, JS.trim.
  assert (Htrim : JS.trimEnd (JS.trimStart ("Version: " ++ v))
                  = "Version: " ++ v).
  { change (JS.trimStart ("Version: " ++ v)) with ("Version: " ++ v).
    apply trimEnd_append; [exact Hne | now apply trimEnd_version_chars]. }
  rewrite Htrim.
  change ("Version: " ++ v) with ("Version" ++ ": " ++ v).
  rewrite (cut_separator_first ":" " " "Version" v eq_refl).
  cbn [String.eqb]. rewrite !Ascii.eqb_refl. f_equal. unfold before.
  now rewrite (cut_first_char_absent ":" " " v
                 (version_chars_without ":" v eq_refl Hv)).
Qed.

End ReportFacts.

Section FlagFacts.

Variable spawnSync : string -> list string -> SpawnSyncReturns.

(** The installed version is empty when the query does not end with status
    zero. *)
Lemma getOPAVersionString_failed :
  status (spawnSync "opa" ["version"]) <> Some 0 ->
  getOPAVersionString spawnSync = "".
Proof.
  unfold getOPAVersionString.
  destruct (status _) as [[| |]|]; congruence.
Qed.

(** An installed version that does not parse passes every check. *)
Lemma installed_unparsed (x : string) :
  List.length (parseOPAVersion (getOPAVersionString spawnSync)) <> 4%nat ->
  installedOPASameOrNewerThan spawnSync x = true.
Proof.
  intros H. unfold installedOPASameOrNewerThan, opaVersionSameOrNewerThan,
    sameOrNewer.
  apply Nat.eqb_neq in H. now rewrite H.
Qed.

(** X6.  When the version query does not end with status zero, or the
    version it reports does not parse to four fields, the installed [opa]
    counts as the same or newer than any version: the bundle flags are
    used, the data parameter is [--bundle] and the data directory is the
    URI written out. *)
Theorem flags_fail_open (uri : Uri) :
  status (spawnSync "opa" ["version"]) <> Some 0
  \/ List.length (parseOPAVersion (getOPAVersionString spawnSync)) <> 4%nat ->
  (forall x, installedOPASameOrNewerThan spawnSync x = true)
  /\ canUseBundleFlags spawnSync = true
  /\ dataParam spawnSync = "--bundle"
  /\ getDataDir spawnSync uri = Uri_toString uri.
Proof.
  intros H.
  assert (Hlen : List.length (parseOPAVersion (getOPAVersionString spawnSync))
                 <> 4%nat).
  { destruct H as [H|H]; [|exact H].
    rewrite (getOPAVersionString_failed H). discriminate. }
  assert (Hall : forall x, installedOPASameOrNewerThan spawnSync x = true)
    by (intros x; now apply installed_unparsed).
  unfold dataParam, getDataDir, canUseBundleFlags.
  rewrite (Hall "0.14.0-dev"). auto.
Qed.

Lemma version_string_chars (a b c : Z) (p : option string) :
  0 <= a -> 0 <= b -> 0 <= c -> patch_plain p ->
  JS.all_chars version_char (version_string a b c p) = true.
Proof.
  intros Ha Hb Hc Hp. unfold version_string.
  assert (Hdigits : forall z, 0 <= z ->
            JS.all_chars version_char (JS.number_toString z) = true).
  { intros z Hz. apply (all_chars_impl JS.isDigit).
    - intros d Hd. unfold version_char. rewrite Hd.
      now rewrite orb_true_r.
    - now apply digits_number_toString. }
  rewrite !all_chars_append, !Hdigits by assumption.
  destruct p as [patch|]; [|reflexivity].
  cbn [andb JS.all_chars append]. rewrite andb_true_r.
  apply (all_chars_impl (fun c => JS.isLetter c || JS.isDigit c)).
  - intros d Hd. unfold version_char. now rewrite Hd.
  - now apply Hp.
Qed.

Lemma patch_plain_ok (p : option string) : patch_plain p -> patch_ok p.
Proof.
  intros Hp patch E.
  apply (all_chars_impl (fun c => JS.isLetter c || JS.isDigit c));
    [|now apply Hp].
  intros d Hd. unfold patch_char. apply andb_true_iff.
  split; apply negb_true_iff, Ascii.eqb_neq; intros ->; discriminate.
Qed.

(** X7.  When the first line of the version report is [Version: ] followed
    by three integers below [2 ^ 53] between dots and, after a dash, a patch
    of letters and digits if any, the bundle flags are used exactly when
    these fields are the same or newer than 0, 14, 0 and [dev]; the data
    parameter and the data directory follow. *)
Theorem flags_of_report (a b c : Z) (p : option string) (rest : string)
    (uri : Uri) :
  spawnSync "opa" ["version"] = version_report (version_string a b c p) rest ->
  safe a -> safe b -> safe c -> patch_plain p ->
  let bundle := newer_by_fields a b c (patch_of p) 0 14 0 "dev" in
  getOPAVersionString spawnSync = version_string a b c p
  /\ canUseBundleFlags spawnSync = bundle
  /\ dataParam spawnSync = (if bundle then "--bundle" else "--data")
  /\ getDataDir spawnSync uri
     = (if bundle then Uri_toString uri else fsPath uri).
Proof.
  intros Hspawn Ha Hb Hc Hp bundle.
  assert (Hv : getOPAVersionString spawnSync = version_string a b c p).
  { apply (getOPAVersionString_report_line _ _ rest Hspawn).
    - unfold version_string. now destruct (JS.number_toString a).
    - apply version_string_chars; try assumption;
        [apply Ha | apply Hb | apply Hc]. }
  assert (Hb' : canUseBundleFlags spawnSync = bundle).
  { unfold canUseBundleFlags, installedOPASameOrNewerThan. rewrite Hv.
    change "0.14.0-dev" with (version_string 0 14 0 (Some "dev")).
    apply version_strings_by_fields; try assumption;
      try (split; [discriminate | reflexivity]).
    - now apply patch_plain_ok.
    - intros patch [= <-]. reflexivity. }
  unfold dataParam, getDataDir. fold (canUseBundleFlags spawnSync).
  rewrite Hb'. repeat split; try assumption. now destruct bundle.
Qed.

End FlagFacts.

Lemma flags_fail_open_witness :
  dataParam (fun _ _ => {| status := None; stdout := "" |}) = "--bundle"
  /\ dataParam (fun _ _ => {| status := Some 0; stdout := "Version: v0.14" |})
     = "--bundle".
Proof.
  split.
  - apply (flags_fail_open (fun _ _ => {| status := None; stdout := "" |})
             {| fsPath := "/policy"; Uri_toString := "file:///policy" |}).
    left. discriminate.
  - apply (flags_fail_open
             (fun _ _ => {| status := Some 0; stdout := "Version: v0.14" |})
             {| fsPath := "/policy"; Uri_toString := "file:///policy" |}).
    right. discriminate.
Defined.

Lemma flags_of_report_witness :
  dataParam (fun _ _ => version_report (version_string 0 13 2 None)
                                       "Go Version: go1.12")
  = "--data".
Proof.
  apply (flags_of_report
           (fun _ _ => version_report (version_string 0 13 2 None)
                                      "Go Version: go1.12")
           0 13 2 None "Go Version: go1.12"
           {| fsPath := "/policy"; Uri_toString := "file:///policy" |}
           eq_refl).
  - split; [discriminate | reflexivity].
  - split; [discriminate | reflexivity].
  - split; [discriminate | reflexivity].
  - intros patch [=].
Defined.

(** ** More on the reference formatter *)

Lemma Format_from_app (result : option JS.json) (rest more : list segment) :
  Format_from result (rest ++ more) = Format_from (Format_from result rest) more.
Proof.
  destruct rest as [|seg rest]; [reflexivity|].
  destruct more as [|seg' more]; [now rewrite app_nil_r|].
  cbn [app Format_from ToString JS.toString].
  assert (Hconcat : forall l l' : list string,
             String.concat "" (l ++ l')
             = String.concat "" l ++ String.concat "" l').
  { induction l as [|x l IH]; intros l'; [reflexivity|].
    cbn [app]. now rewrite !concat_cons, IH, append_assoc. }
  change (seg :: (rest ++ seg' :: more)%list)
    with ((seg :: rest) ++ seg' :: more)%list.
  now rewrite map_app, Hconcat, append_assoc.
Qed.

(** X8.  Formatting a ref that is extended by further segments goes on from
    the formatting of the ref: the result for the ref, as a string, followed
    by what the further segments add. *)
Theorem refToString_app (root : segment) (rest more : list segment)
    (v : option JS.json) :
  refToString (root :: rest) = Return v ->
  more <> [] ->
  refToString (root :: rest ++ more)
  = Return (Some (JS.JString
                    (ToString v ++ String.concat "" (map contribution more)))).
Proof.
  rewrite !refToString_Format. intros [= <-] Hmore. f_equal.
  unfold Format. fold (Format_from (value root) (rest ++ more)).
  fold (Format_from (value root) rest).
  rewrite Format_from_app. now destruct more.
Qed.

Lemma refToString_app_witness :
  refToString ([segment_input; segment_a] ++ [segment_b_c; segment_0])
  = Return (Some (JS.JString
              ("input.a"
               ++ String.concat "" (map contribution [segment_b_c; segment_0])))).
Proof.
  apply (refToString_app segment_input [segment_a] [segment_b_c; segment_0]
           (Some (JS.JString "input.a"))).
  - reflexivity.
  - discriminate.
Defined.

(** X9.  A ref of one segment is returned as its value, whatever that is: a
    number stays a number and a missing value stays undefined, so the result
    need not be a string.  A ref of two segments or more always gives a
    string. *)
Theorem refToString_result_type (root : segment) (rest : list segment) :
  refToString [root] = Return (value root)
  /\ (rest <> [] -> exists text,
         refToString (root :: rest) = Return (Some (JS.JString text))).
Proof.
  split; [apply refToString_Format|].
  intros Hrest. rewrite refToString_Format.
  destruct rest as [|seg rest]; [congruence|]. eexists. reflexivity.
Qed.

Lemma refToString_result_type_witness :
  refToString [segment_7] = Return (Some (JS.JNumber 7))
  /\ exists text,
       refToString [segment_7; segment_a] = Return (Some (JS.JString text)).
Proof.
  split.
  - apply (refToString_result_type segment_7 []).
  - apply (refToString_result_type segment_7 [segment_a]). discriminate.
Defined.

Lemma contribution_identifier (v : string) :
  identifier v -> contribution (string_segment v) = "." ++ v.
Proof.
  intros Hid. unfold contribution, string_segment, type_is_string.
  cbn [type value String.eqb]. rewrite !Ascii.eqb_refl.
  assert (regoVarPattern_test (Some (JS.JString v)) = true) as ->
      by now apply regoVarPattern_test_identifier.
  reflexivity.
Qed.

Lemma concat_dots (r : string) (vs : list string) :
  r ++ String.concat "" (map (fun v => "." ++ v) vs) = String.concat "." (r :: vs).
Proof.
  revert r. induction vs as [|v vs IH]; intros r.
  - simpl. apply append_empty_r.
  - cbn [map]. rewrite concat_cons, append_assoc, IH. reflexivity.
Qed.

(** X10.  A ref whose root value is a string and whose further segments are
    all of type [string] with identifiers as values formats as the root and
    the identifiers joined by dots. *)
Theorem refToString_dotted (root : segment) (r : string) (vs : list string) :
  value root = Some (JS.JString r) ->
  Forall identifier vs ->
  refToString (root :: map string_segment vs)
  = Return (Some (JS.JString (String.concat "." (r :: vs)))).
Proof.
  intros Hr Hvs. rewrite refToString_Format. unfold Format. rewrite Hr.
  assert (Hmap : map contribution (map string_segment vs)
                 = map (fun v => "." ++ v) vs).
  { induction Hvs as [|v vs Hv _ IH]; [reflexivity|].
    cbn [map]. now rewrite IH, contribution_identifier. }
  rewrite <- concat_dots, <- Hmap.
  destruct vs; [|reflexivity].
  simpl. now rewrite append_empty_r.
Qed.

Lemma refToString_dotted_witness :
  refToString (segment_input :: map string_segment ["request"; "user_id"])
  = Return (Some (JS.JString "input.request.user_id")).
Proof.
  apply (refToString_dotted segment_input "input" ["request"; "user_id"]).
  - reflexivity.
  - repeat constructor; intros d Hd; simpl in Hd;
      repeat (destruct Hd as [<-|Hd]; [reflexivity|]); contradiction.
Defined.

(** ** Parsing a file *)

Section ParseFacts.

Variable configured_path : option string.
Variable commandExistsSync : string -> bool.
Variable existsSync : string -> bool.
Variable child : string -> list string -> string -> option exit_report.
Variable JSON_parse : string -> option JS.json.
Variable getPackage : JS.json -> M string.
Variable getImports : JS.json -> M (list string).

Local Abbreviation Locate' :=
  (Locate configured_path commandExistsSync existsSync).
Local Abbreviation run' :=
  (run configured_path commandExistsSync existsSync child JSON_parse).
Local Abbreviation parse' :=
  (parse configured_path commandExistsSync existsSync child JSON_parse
         getPackage getImports).
Local Abbreviation deliver' := (deliver getPackage getImports).

(** [run] once the executable resolves and the child exits. *)
Lemma run_located (path : string) (args : list string) (stdin : string)
    (cb : string -> JS.json -> M unit) (exe : string) (report : exit_report) :
  Locate' path = Some exe ->
  child exe args stdin = Some report ->
  run' path args stdin cb
  = (observed exe args stdin report ;;
     run_callback JSON_parse cb (exit_code report) (exit_stderr report)
                  (exit_stdout report)).
Proof.
  intros Hexe Hchild. unfold run.
  rewrite (runWithStatus_located _ _ _ _ _ _ _ _ _ Hexe). unfold invoke.
  rewrite Hchild. unfold observed, bind.
  destruct (run_callback _ _ _ _ _) as [t r].
  now rewrite <- app_assoc.
Qed.

(** [run] without a usable executable, and with a child that never exits. *)
Lemma run_no_exit (path : string) (args : list string) (stdin : string)
    (cb : string -> JS.json -> M unit) :
  (Locate' path = None ->
   run' path args stdin cb = ([PromptForInstall], Return tt))
  /\ (forall exe, Locate' path = Some exe ->
                  child exe args stdin = None ->
                  run' path args stdin cb
                  = (spawn_events exe args stdin, Return tt)).
Proof.
  split.
  - intros H. unfold run. now apply runWithStatus_not_found.
  - intros exe Hexe Hchild. unfold run.
    rewrite (runWithStatus_located _ _ _ _ _ _ _ _ _ Hexe). unfold invoke.
    now rewrite Hchild.
Qed.

(** X11.  When [opa parse] exits with a code other than zero and wrote
    something, [parse] calls [onerror] with the standard output if it is not
    empty and with the standard error otherwise, and does not call [cb]. *)
Theorem parse_reports_failure (opaPath path : string)
    (cb : string -> list string -> M unit) (onerror : string -> M unit)
    (exe : string) (report : exit_report) :
  Locate' opaPath = Some exe ->
  child exe (parse_args path) "" = Some report ->
  exit_code report <> Some 0 ->
  let message := if (exit_stdout report =? "")%string
                 then exit_stderr report else exit_stdout report in
  message <> "" ->
  parse' opaPath path cb onerror
  = (observed exe (parse_args path) "" report ;; onerror message).
Proof.
  intros Hexe Hchild Hcode message Hmessage. unfold parse.
  fold (parse_args path).
  rewrite (run_located _ _ _ _ _ _ Hexe Hchild).
  assert (Hcb : run_callback JSON_parse (parse_callback getPackage getImports
                                                        cb onerror)
                  (exit_code report) (exit_stderr report) (exit_stdout report)
                = onerror message).
  { unfold run_callback, parse_callback. subst message.
    assert (Hfail : match exit_code report with Some 0 => false | _ => true end
                    = true)
      by (destruct (exit_code report) as [[| |]|]; congruence).
    rewrite Hfail.
    destruct (String.eqb_spec (exit_stdout report) "") as [E|E]; cbn [negb].
    - apply String.eqb_neq in Hmessage. cbv beta. now rewrite ?Hmessage.
    - apply String.eqb_neq in E. cbv beta. now rewrite ?E. }
  now rewrite Hcb.
Qed.

(** X12.  When [opa parse] exits with a code other than zero and wrote
    nothing at all, [parse] does not call [onerror]: it takes the empty
    string for the parsed module and goes on to [getPackage], [getImports]
    and [cb] as after a success. *)
Theorem parse_silent_failure (opaPath path : string)
    (cb : string -> list string -> M unit) (onerror : string -> M unit)
    (exe : string) (report : exit_report) :
  Locate' opaPath = Some exe ->
  child exe (parse_args path) "" = Some report ->
  exit_code report <> Some 0 ->
  exit_stdout report = "" ->
  exit_stderr report = "" ->
  parse' opaPath path cb onerror
  = (observed exe (parse_args path) "" report ;;
     deliver' cb (JS.JString "")).
Proof.
  intros Hexe Hchild Hcode Hout Herr. unfold parse.
  fold (parse_args path).
  rewrite (run_located _ _ _ _ _ _ Hexe Hchild).
  unfold run_callback, parse_callback. rewrite Hout, Herr.
  assert (Hfail : match exit_code report with Some 0 => false | _ => true end
                  = true)
    by (destruct (exit_code report) as [[| |]|]; congruence).
  rewrite Hfail. reflexivity.
Qed.

(** X13.  When [opa parse] exits with code zero, [parse] decodes its
    standard output and hands the package and the imports of the decoded
    module to [cb]; when the output is no JSON the [SyntaxError] is thrown;
    [onerror] is called in neither case. *)
Theorem parse_success (opaPath path : string)
    (cb : string -> list string -> M unit) (onerror : string -> M unit)
    (exe : string) (report : exit_report) :
  Locate' opaPath = Some exe ->
  child exe (parse_args path) "" = Some report ->
  exit_code report = Some 0 ->
  (forall v, JSON_parse (exit_stdout report) = Some v ->
             parse' opaPath path cb onerror
             = (observed exe (parse_args path) "" report ;; deliver' cb v))
  /\ (JSON_parse (exit_stdout report) = None ->
      parse' opaPath path cb onerror
      = (observed exe (parse_args path) "" report ;; throw SyntaxError)).
Proof.
  intros Hexe Hchild Hcode. unfold parse. fold (parse_args path).
  rewrite (run_located _ _ _ _ _ _ Hexe Hchild).
  unfold run_callback, parse_callback. rewrite Hcode.
  split; [intros v ->|intros ->]; reflexivity.
Qed.

(** X14.  Without a usable executable [parse] prompts for installation and
    calls neither [cb] nor [onerror]; nor does it call them when the child
    never exits. *)
Theorem parse_no_callback (opaPath path : string)
    (cb : string -> list string -> M unit) (onerror : string -> M unit) :
  (Locate' opaPath = None ->
   parse' opaPath path cb onerror = ([PromptForInstall], Return tt))
  /\ (forall exe, Locate' opaPath = Some exe ->
                  child exe (parse_args path) "" = None ->
                  parse' opaPath path cb onerror
                  = (spawn_events exe (parse_args path) "", Return tt)).
Proof.
  unfold parse. fold (parse_args path). apply run_no_exit.
Qed.

End ParseFacts.

Lemma parse_reports_failure_witness :
  sample_parse "bad.rego"
  = (observed "opa" (parse_args "bad.rego") ""
       {| exit_code := Some 1; exit_stderr := "1 error occurred";
          exit_stdout := "" |} ;;
     record_error "1 error occurred").
Proof.
  apply (parse_reports_failure None sample_commandExistsSync no_file
           sample_parser decode_literal sample_getPackage sample_getImports
           "opa" "bad.rego" record_package record_error "opa"
           {| exit_code := Some 1; exit_stderr := "1 error occurred";
              exit_stdout := "" |}).
  - reflexivity.
  - reflexivity.
  - discriminate.
  - discriminate.
Defined.

Lemma parse_silent_failure_witness :
  sample_parse "silent.rego"
  = (observed "opa" (parse_args "silent.rego") ""
       {| exit_code := Some 2; exit_stderr := ""; exit_stdout := "" |} ;;
     record_package "data.example" ["data.users"]).
Proof.
  unfold sample_parse.
  rewrite (parse_silent_failure None sample_commandExistsSync no_file
             sample_parser decode_literal sample_getPackage sample_getImports
             "opa" "silent.rego" record_package record_error "opa"
             {| exit_code := Some 2; exit_stderr := ""; exit_stdout := "" |}
             eq_refl eq_refl).
  - reflexivity.
  - discriminate.
  - reflexivity.
  - reflexivity.
Defined.

Lemma parse_success_witness :
  sample_parse "ok.rego"
  = (observed "opa" (parse_args "ok.rego") ""
       {| exit_code := Some 0; exit_stderr := ""; exit_stdout := "null" |} ;;
     record_package "data.example" ["data.users"]).
Proof.
  unfold sample_parse.
  rewrite (proj1 (parse_success None sample_commandExistsSync no_file
             sample_parser decode_literal sample_getPackage sample_getImports
             "opa" "ok.rego" record_package record_error "opa"
             {| exit_code := Some 0; exit_stderr := ""; exit_stdout := "null" |}
             eq_refl eq_refl eq_refl) JS.JNull eq_refl).
  reflexivity.
Defined.

Lemma parse_no_callback_witness :
  parse None no_file no_file sample_parser decode_literal
        sample_getPackage sample_getImports "opa" "ok.rego"
        record_package record_error
  = ([PromptForInstall], Return tt)
  /\ sample_parse "missing.rego"
     = (spawn_events "opa" (parse_args "missing.rego") "", Return tt).
Proof.
  split.
  - apply (parse_no_callback None no_file no_file sample_parser decode_literal
             sample_getPackage sample_getImports "opa" "ok.rego"
             record_package record_error).
    reflexivity.
  - apply (proj2 (parse_no_callback None sample_commandExistsSync no_file
             sample_parser decode_literal sample_getPackage sample_getImports
             "opa" "missing.rego" record_package record_error) "opa");
      reflexivity.
Defined.

(** ** More on splitting *)

Section SplitFacts.

Variables (a : ascii) (sep' : string).
Let sep := String a sep'.

Lemma split_from_nonempty (s : string) :
  forall k piece, JS.split_from sep k piece s <> [].
Proof.
  induction s as [|c s IH]; intros k piece; cbn [JS.split_from];
    [discriminate|].
  destruct k; [|apply IH].
  destruct (prefix sep (String c s)); [discriminate | apply IH].
Qed.

Lemma concat_pieces (piece : string) (pieces : list string) :
  pieces <> [] ->
  String.concat sep (piece :: pieces) = piece ++ sep ++ String.concat sep pieces.
Proof. now destruct pieces. Qed.

Lemma length_drop (k : nat) (s : string) :
  (String.length (JS.drop k s) <= String.length s)%nat.
Proof.
  revert s. induction k as [|k IH]; intros [|c s]; simpl; try lia.
  specialize (IH s). lia.
Qed.

(** Joining the pieces of the scan with the separator gives back what was
    scanned, after what was there before. *)
Lemma concat_split_from (n : nat) :
  forall s piece,
    (String.length s <= n)%nat ->
    String.concat sep (JS.split_from sep 0 piece s) = piece ++ s.
Proof.
  induction n as [|n IH]; intros [|c s] piece Hlen;
    try (simpl; now rewrite append_empty_r); [simpl in Hlen; lia|].
  cbn [JS.split_from]. cbn [String.length] in Hlen.
  destruct (prefix sep (String c s)) eqn:Hp.
  - rewrite split_from_skip, concat_pieces by apply split_from_nonempty.
    rewrite IH by (pose proof (length_drop (String.length sep - 1) s); lia).
    f_equal. symmetry. etransitivity; [apply (prefix_drop _ _ Hp)|].
    unfold sep. cbn [String.length JS.drop append Nat.sub].
    rewrite ?Nat.sub_0_r. reflexivity.
  - rewrite IH by lia. now rewrite append_assoc.
Qed.

Lemma length_append (s t : string) :
  String.length (s ++ t) = (String.length s + String.length t)%nat.
Proof. induction s as [|c s IH]; simpl; [reflexivity | now rewrite IH]. Qed.

(** The text before the first separator does not contain the separator. *)
Lemma before_without (s : string) : cut sep (before sep s) = None.
Proof.
  unfold before. destruct (cut sep s) as [[b rest]|] eqn:Hcut; [|exact Hcut].
  destruct (cut sep b) as [[b' rest']|] eqn:Hb; [|reflexivity].
  exfalso. pose proof (cut_sound _ _ _ _ Hb) as Eb.
  pose proof (cut_sound _ _ _ _ Hcut) as Es.
  assert (Hs : s = b' ++ sep ++ (rest' ++ sep ++ rest))
    by (rewrite Es, Eb at 1; now rewrite !append_assoc).
  pose proof (cut_first _ _ _ _ Hcut _ _ Hs) as Hle.
  rewrite Eb in Hle. rewrite !length_append in Hle.
  unfold sep in Hle. cbn [String.length] in Hle. lia.
Qed.

(** With a separator of one character, there is one piece more than there
    are separators. *)
Lemma length_split_from_char (s : string) :
  forall piece,
    List.length (JS.split_from (String a "") 0 piece s) = S (count_char a s).
Proof.
  induction s as [|c s IH]; intros piece; [reflexivity|].
  cbn [JS.split_from prefix count_char String.length Nat.sub].
  destruct (ascii_dec a c) as [<-|Hac].
  - rewrite Ascii.eqb_refl.
    assert (prefix "" s = true) as -> by now destruct s.
    cbn [List.length]. now rewrite IH.
  - assert ((c =? a)%char = false) as -> by (apply Ascii.eqb_neq; congruence).
    apply IH.
Qed.

End SplitFacts.

(** X15.  A version string parses to four fields exactly when it has two
    dots at least; with fewer dots the parse is the empty array. *)
Theorem parseOPAVersion_dots (s : string) :
  ((2 <= count_char "." s)%nat -> List.length (parseOPAVersion s) = 4%nat)
  /\ ((count_char "." s < 2)%nat -> parseOPAVersion s = []).
Proof.
  unfold parseOPAVersion, JS.split.
  pose proof (length_split_from_char "." s "") as Hlen.
  change (JS.split_from "." 0 "" s) with (JS.split_all "." s) in Hlen.
  rewrite length_firstn, Hlen. split; intros H.
  - now replace (Nat.min 3 (S (count_char "." s))) with 3%nat by lia.
  - destruct (Nat.ltb_spec (Nat.min 3 (S (count_char "." s))) 3);
      [reflexivity | lia].
Qed.

Lemma parseOPAVersion_dots_witness :
  List.length (parseOPAVersion "1.2.3.4") = 4%nat
  /\ parseOPAVersion "0.14" = [].
Proof.
  split.
  - apply (proj1 (parseOPAVersion_dots "1.2.3.4")). vm_compute. lia.
  - apply (proj2 (parseOPAVersion_dots "0.14")). vm_compute. lia.
Defined.

(** X16.  Joining the pieces of a split with the separator gives back the
    string that was split, for every separator: nothing of the output of
    [opa version] is lost when it is split into lines. *)
Theorem split_all_join (sep s : string) :
  String.concat sep (JS.split_all sep s) = s.
Proof.
  destruct sep as [|a sep'].
  - unfold JS.split_all. induction s as [|c s IH]; [reflexivity|].
    cbn [list_ascii_of_string map]. rewrite concat_cons, IH. reflexivity.
  - unfold JS.split_all.
    now rewrite (concat_split_from a sep' (String.length s) s "").
Qed.

(** X17.  The installed version that [getOPAVersionString] returns never
    contains a colon followed by a space. *)
Theorem getOPAVersionString_without_separator
    (spawnSync : string -> list string -> SpawnSyncReturns) (b rest : string) :
  getOPAVersionString spawnSync <> b ++ ": " ++ rest.
Proof.
  apply cut_none. unfold getOPAVersionString.
  destruct (status _) as [[| |]|]; try reflexivity.
  match goal with
  | |- cut _ (scan_lines ?lines _ _) = _ =>
      change (scan_lines lines (List.length lines) 0)
        with (scan_lines ([] ++ lines) (List.length lines)
                         (@List.length string []));
      rewrite (scan_lines_first_version lines []);
      generalize lines
  end.
  intros report. induction report as [|line report IH]; [reflexivity|].
  cbn [first_version]. unfold version_of_line.
  destruct (cut ": " (JS.trim line)) as [[label after]|]; [|exact IH].
  destruct (label =? "Version")%string; [|exact IH].
  apply before_without.
Qed.

(** X18.  [Number] reads the decimal digits of an integer from zero to
    below [2 ^ 53] as that integer exactly. *)
Theorem Number_of_digits (z : Z) :
  safe z -> JS.Number (JS.number_toString z) = JS.Finite (inject_Z z).
Proof. exact (Number_number_toString z). Qed.

Lemma Number_of_digits_witness :
  JS.Number (JS.number_toString 9007199254740991)
  = JS.Finite (inject_Z 9007199254740991).
Proof.
  apply Number_of_digits. split; [discriminate | reflexivity].
Defined.

(** ** More on the version report *)

Section LineFacts.

Lemma trimStart_blank (ws s : string) :
  JS.all_chars JS.isWhiteSpace ws = true ->
  JS.trimStart (ws ++ s) = JS.trimStart s.
Proof.
  induction ws as [|c ws IH]; cbn [JS.all_chars append JS.trimStart];
    [reflexivity|].
  rewrite andb_true_iff. intros [-> Hws]. now apply IH.
Qed.

Lemma trimEnd_blank (ws : string) :
  JS.all_chars JS.isWhiteSpace ws = true -> JS.trimEnd ws = "".
Proof.
  induction ws as [|c ws IH]; cbn [JS.all_chars JS.trimEnd]; [reflexivity|].
  rewrite andb_true_iff. intros [-> Hws]. now rewrite IH.
Qed.

Lemma trimEnd_append_blank (s ws : string) :
  JS.all_chars JS.isWhiteSpace ws = true ->
  JS.trimEnd (s ++ ws) = JS.trimEnd s.
Proof.
  intros Hws. induction s as [|c s IH]; cbn [append JS.trimEnd].
  - now apply trimEnd_blank.
  - now rewrite IH.
Qed.

Lemma blank_white (ws : string) :
  JS.all_chars blank ws = true ->
  JS.all_chars JS.isWhiteSpace ws = true
  /\ JS.all_chars (fun d => negb (d =? "010")%char) ws = true.
Proof.
  intros H. split; apply (all_chars_impl blank); try assumption;
    intros c; unfold blank; rewrite andb_true_iff; tauto.
Qed.

(** A first line that gives the version, with white space around it. *)
Lemma getOPAVersionString_padded_line
    (spawnSync : string -> list string -> SpawnSyncReturns)
    (ws1 v ws2 rest : string) :
  spawnSync "opa" ["version"]
  = {| status := Some 0;
       stdout := ws1 ++ "Version: " ++ v ++ ws2 ++ line_feed ++ rest |} ->
  JS.all_chars blank ws1 = true ->
  JS.all_chars blank ws2 = true ->
  v <> "" ->
  JS.all_chars version_char v = true ->
  getOPAVersionString spawnSync = v.
Proof.
  intros Hspawn H1 H2 Hne Hv. unfold getOPAVersionString.
  rewrite Hspawn. cbn [status stdout].
  destruct (blank_white _ H1) as [W1 L1], (blank_white _ H2) as [W2 L2].
  match goal with
  | |- scan_lines ?lines _ _ = _ =>
      change (scan_lines lines (List.length lines) 0)
        with (scan_lines ([] ++ lines) (List.length lines)
                         (@List.length string []));
      rewrite (scan_lines_first_version lines [])
  end.
  unfold line_feed. rewrite split_all_cut.
  assert (Hcut : cut (String "010" "")
                     (ws1 ++ "Version: " ++ v ++ ws2 ++ String "010" "" ++ rest)
                 = Some (ws1 ++ "Version: " ++ v ++ ws2, rest)).
  { replace (ws1 ++ "Version: " ++ v ++ ws2 ++ String "010" "" ++ rest)
      with ((ws1 ++ "Version: " ++ v ++ ws2) ++ String "010" rest)
      by (now rewrite !append_assoc).
    apply cut_char_first.
    rewrite !all_chars_append, L1, L2.
    now rewrite (version_chars_without "010" v eq_refl Hv). }
  rewrite Hcut. cbn [first_version]. unfold version_of_line, JS.trim.
  assert (Htrim : JS.trimEnd (JS.trimStart (ws1 ++ "Version: " ++ v ++ ws2))
                  = "Version: " ++ v).
  { rewrite (trimStart_blank ws1 _ W1).
    change (JS.trimStart ("Version: " ++ v ++ ws2))
      with ("Version: " ++ v ++ ws2).
    replace ("Version: " ++ v ++ ws2) with (("Version: " ++ v) ++ ws2)
      by now rewrite append_assoc.
    rewrite (trimEnd_append_blank _ ws2 W2).
    apply trimEnd_append; [exact Hne | now apply trimEnd_version_chars]. }
  rewrite Htrim.
  change ("Version: " ++ v) with ("Version" ++ ": " ++ v).
  rewrite (cut_separator_first ":" " " "Version" v eq_refl).
  cbn [String.eqb]. rewrite !Ascii.eqb_refl. f_equal. unfold before.
  now rewrite (cut_first_char_absent ":" " " v
                 (version_chars_without ":" v eq_refl Hv)).
Qed.

(** A first line that gives no version is passed over. *)
Lemma getOPAVersionString_skipped_line (line rest : string) :
  JS.all_chars (fun d => negb (d =? "010")%char) line = true ->
  (forall t, JS.trim line <> "Version: " ++ t) ->
  first_version (before ": ") (JS.split_all line_feed (line ++ line_feed ++ rest))
  = first_version (before ": ") (JS.split_all line_feed rest).
Proof.
  intros Hline Hno. unfold line_feed at 1 2. rewrite split_all_cut.
  change (String "010" "" ++ rest) with (String "010" rest).
  rewrite (cut_char_first "010" line rest Hline).
  cbn [first_version]. unfold version_of_line.
  destruct (cut ": " (JS.trim line)) as [[label after]|] eqn:Hcut;
    [|reflexivity].
  destruct (String.eqb_spec label "Version") as [->|_]; [|reflexivity].
  exfalso. apply (Hno after). now apply cut_sound in Hcut.
Qed.

End LineFacts.

(** X19.  White space around the line that gives the version is ignored:
    when the first line of the report is [Version: ] and a version of
    letters, digits, dots and dashes, with white space before or after it
    such as the carriage return of a line that ends in CR LF, the version
    is returned without it. *)
Theorem getOPAVersionString_padded
    (spawnSync : string -> list string -> SpawnSyncReturns)
    (ws1 v ws2 rest : string) :
  spawnSync "opa" ["version"]
  = {| status := Some 0;
       stdout := ws1 ++ "Version: " ++ v ++ ws2 ++ line_feed ++ rest |} ->
  JS.all_chars blank ws1 = true ->
  JS.all_chars blank ws2 = true ->
  v <> "" ->
  JS.all_chars version_char v = true ->
  getOPAVersionString spawnSync = v.
Proof. exact (getOPAVersionString_padded_line spawnSync ws1 v ws2 rest). Qed.

Lemma getOPAVersionString_padded_witness :
  getOPAVersionString
    (fun _ _ =>
       {| status := Some 0;
          stdout := "" ++ "Version: " ++ "0.14.0-dev" ++ String "013" ""
                    ++ line_feed ++ "Build Commit: 3be55ed6" |})
  = "0.14.0-dev".
Proof.
  apply (getOPAVersionString_padded _ "" "0.14.0-dev" (String "013" "")
           "Build Commit: 3be55ed6" eq_refl).
  - reflexivity.
  - reflexivity.
  - discriminate.
  - reflexivity.
Defined.

(** X20.  A first line of the report that, once trimmed, does not start
    with [Version: ] is passed over: the result is that of the report
    without this line. *)
Theorem getOPAVersionString_skips (line rest : string) :
  JS.all_chars (fun d => negb (d =? "010")%char) line = true ->
  (forall t, JS.trim line <> "Version: " ++ t) ->
  getOPAVersionString
    (fun _ _ => {| status := Some 0; stdout := line ++ line_feed ++ rest |})
  = getOPAVersionString (fun _ _ => {| status := Some 0; stdout := rest |}).
Proof.
  intros Hline Hno. unfold getOPAVersionString. cbn [status stdout].
  repeat match goal with
  | |- context [scan_lines ?lines (List.length ?lines) 0] =>
      change (scan_lines lines (List.length lines) 0)
        with (scan_lines ([] ++ lines) (List.length lines)
                         (@List.length string []));
      rewrite (scan_lines_first_version lines [])
  end.
  now apply getOPAVersionString_skipped_line.
Qed.

Lemma getOPAVersionString_skips_witness :
  getOPAVersionString
    (fun _ _ => {| status := Some 0;
                   stdout := "Build Version: 9" ++ line_feed
                             ++ "Version: 0.14.0" |})
  = getOPAVersionString
      (fun _ _ => {| status := Some 0; stdout := "Version: 0.14.0" |}).
Proof.
  apply (getOPAVersionString_skips "Build Version: 9" "Version: 0.14.0").
  - reflexivity.
  - intros t. vm_compute. discriminate.
Defined.

Section RunFacts.

Variable configured_path : option string.
Variable commandExistsSync : string -> bool.
Variable existsSync : string -> bool.
Variable child : string -> list string -> string -> option exit_report.
Variable JSON_parse : string -> option JS.json.

(** X21.  Whatever the world is, [run] calls its callback once at most, and
    when it does, the error or the result is the empty string: it prompts
    for installation, or spawns a child that never exits, or throws after
    the exit, or calls back with an empty error and the decoded value, or
    with a message and an empty result. *)
Theorem run_protocol (path : string) (args : list string) (stdin : string)
    (cb : string -> JS.json -> M unit) :
  run_outcome cb
    (run configured_path commandExistsSync existsSync child JSON_parse
         path args stdin cb).
Proof.
  destruct (Locate configured_path commandExistsSync existsSync path)
    as [exe|] eqn:Hexe.
  - destruct (child exe args stdin) as [report|] eqn:Hchild.
    + rewrite (run_located _ _ _ _ _ _ _ _ _ _ _ Hexe Hchild).
      unfold run_callback.
      destruct (match exit_code report with Some 0 => false | _ => true end).
      * destruct (negb (exit_stdout report =? "")%string);
          apply run_called; now right.
      * destruct (JSON_parse (exit_stdout report)) as [v|].
        -- apply run_called. now left.
        -- apply run_thrown.
    + rewrite (proj2 (run_no_exit _ _ _ _ _ _ _ _ _) exe Hexe Hchild).
      apply run_pending.
  - rewrite (proj1 (run_no_exit _ _ _ _ _ _ _ _ _) Hexe).
    apply run_prompted.
Qed.

End RunFacts.
